(** * SPIFlash: a shallow embedding of the serial-flash driver

    The driver of [SPIFlash.cpp] talks to a NOR flash chip over SPI.  Every
    method is embedded as a state-passing function over the microcontroller
    state [mcu]; the SPI bus is a mock that logs every chip-select edge and
    every byte exchange, and whose answers are given by a function of the log
    so far.  The only loop of the driver that need not terminate is the
    busy-wait of [command]; it is followed for [patience] status polls. *)

From Stdlib Require Import ZArith List Bool Lia.
From stdpp Require Import base list.
Import ListNotations.
Local Open Scope Z_scope.

(** ** C integer types of the AVR target

    [byte] is [uint8_t], [word] and [uint16_t] are 16 bits wide, [long] is a
    signed 32-bit integer.  Conversions wrap around. *)

Definition to_uint8 (z : Z) : Z := z mod 256.
Definition to_uint16 (z : Z) : Z := z mod 65536.
Definition to_long (z : Z) : Z := (z + 2147483648) mod 4294967296 - 2147483648.

Definition is_uint16 (z : Z) : Prop := 0 <= z < 65536.
Definition is_long (z : Z) : Prop := -2147483648 <= z < 2147483648.

(** ** Opcodes *)

(** Modelled from the spec: the opcode macros of [SPIFlash.h], which is not
    part of the sources; the values are those of the wire-protocol table. *)
Definition SPIFLASH_WRITEENABLE : Z := 0x06.
(** Modelled from the spec: opcode macro of [SPIFlash.h] (STATUS-READ). *)
Definition SPIFLASH_STATUSREAD : Z := 0x05.
(** Modelled from the spec: opcode macro of [SPIFlash.h] (STATUS-WRITE). *)
Definition SPIFLASH_STATUSWRITE : Z := 0x01.
(** Modelled from the spec: opcode macro of [SPIFlash.h] (ARRAY-READ, fast). *)
Definition SPIFLASH_ARRAYREAD : Z := 0x0B.
(** Modelled from the spec: opcode macro of [SPIFlash.h] (ARRAY-READ-LOW-FREQ). *)
Definition SPIFLASH_ARRAYREADLOWFREQ : Z := 0x03.
(** Modelled from the spec: opcode macro of [SPIFlash.h] (BYTE-OR-PAGE-PROGRAM). *)
Definition SPIFLASH_BYTEPAGEPROGRAM : Z := 0x02.
(** Modelled from the spec: opcode macro of [SPIFlash.h] (BLOCK-ERASE-4K). *)
Definition SPIFLASH_BLOCKERASE_4K : Z := 0x20.
(** Modelled from the spec: opcode macro of [SPIFlash.h] (BLOCK-ERASE-32K). *)
Definition SPIFLASH_BLOCKERASE_32K : Z := 0x52.
(** Modelled from the spec: opcode macro of [SPIFlash.h] (CHIP-ERASE). *)
Definition SPIFLASH_CHIPERASE : Z := 0x60.
(** Modelled from the spec: opcode macro of [SPIFlash.h] (JEDEC-ID). *)
Definition SPIFLASH_IDREAD : Z := 0x9F.
(** Modelled from the spec: opcode macro of [SPIFlash.h] (UNIQUE-ID). *)
Definition SPIFLASH_MACREAD : Z := 0x4B.
(** Modelled from the spec: opcode macro of [SPIFlash.h] (DEEP-POWER-DOWN). *)
Definition SPIFLASH_SLEEP : Z := 0xB9.
(** Modelled from the spec: opcode macro of [SPIFlash.h]
    (RELEASE-FROM-POWER-DOWN). *)
Definition SPIFLASH_WAKE : Z := 0xAB.

(** ** The recorded bus and the microcontroller state *)

(** What the mock bus records: the chip-select line driven low by [select],
    driven high by [unselect], and one full-duplex byte exchange. *)
Inductive event : Type :=
  | Select
  | Unselect
  | Xfer (mosi miso : Z).

(** The fields of a handle that the constructor sets and nothing changes. *)
Record SPIFlash : Type := {
  _slaveSelectPin : Z;
  _jedecID : Z
}.

(** [SPIFlash::SPIFlash(uint8_t slaveSelectPin, uint16_t jedecID)]. *)
Definition SPIFlash_new (slaveSelectPin jedecID : Z) : SPIFlash :=
  {| _slaveSelectPin := to_uint8 slaveSelectPin;
     _jedecID := to_uint16 jedecID |}.

(** The mutable state: the bus log; the global interrupt flag; the SPI
    control and status registers, and the copies [_SPCR], [_SPSR] the handle
    saves; port B (touched on the ATmega32U4 only); the mode and the level of
    pin [_slaveSelectPin]; the class-level unique-id buffer. *)
Record mcu : Type := {
  trace : list event;
  SREG_I : bool;
  SPCR : Z;
  SPSR : Z;
  _SPCR : Z;
  _SPSR : Z;
  DDRB : Z;
  PORTB : Z;
  ss_output : bool;
  ss_high : bool;
  UNIQUEID : list Z
}.

Definition set_trace (f : list event -> list event) (s : mcu) : mcu :=
  {| trace := f (trace s); SREG_I := SREG_I s; SPCR := SPCR s; SPSR := SPSR s;
     _SPCR := _SPCR s; _SPSR := _SPSR s; DDRB := DDRB s; PORTB := PORTB s;
     ss_output := ss_output s; ss_high := ss_high s; UNIQUEID := UNIQUEID s |}.

Definition set_SREG_I (b : bool) (s : mcu) : mcu :=
  {| trace := trace s; SREG_I := b; SPCR := SPCR s; SPSR := SPSR s;
     _SPCR := _SPCR s; _SPSR := _SPSR s; DDRB := DDRB s; PORTB := PORTB s;
     ss_output := ss_output s; ss_high := ss_high s; UNIQUEID := UNIQUEID s |}.

Definition set_SPI (cr sr : Z) (s : mcu) : mcu :=
  {| trace := trace s; SREG_I := SREG_I s; SPCR := cr; SPSR := sr;
     _SPCR := _SPCR s; _SPSR := _SPSR s; DDRB := DDRB s; PORTB := PORTB s;
     ss_output := ss_output s; ss_high := ss_high s; UNIQUEID := UNIQUEID s |}.

Definition set_saved (cr sr : Z) (s : mcu) : mcu :=
  {| trace := trace s; SREG_I := SREG_I s; SPCR := SPCR s; SPSR := SPSR s;
     _SPCR := cr; _SPSR := sr; DDRB := DDRB s; PORTB := PORTB s;
     ss_output := ss_output s; ss_high := ss_high s; UNIQUEID := UNIQUEID s |}.

Definition set_portB (ddr port : Z) (s : mcu) : mcu :=
  {| trace := trace s; SREG_I := SREG_I s; SPCR := SPCR s; SPSR := SPSR s;
     _SPCR := _SPCR s; _SPSR := _SPSR s; DDRB := ddr; PORTB := port;
     ss_output := ss_output s; ss_high := ss_high s; UNIQUEID := UNIQUEID s |}.

Definition set_ss_output (b : bool) (s : mcu) : mcu :=
  {| trace := trace s; SREG_I := SREG_I s; SPCR := SPCR s; SPSR := SPSR s;
     _SPCR := _SPCR s; _SPSR := _SPSR s; DDRB := DDRB s; PORTB := PORTB s;
     ss_output := b; ss_high := ss_high s; UNIQUEID := UNIQUEID s |}.

Definition set_ss_high (b : bool) (s : mcu) : mcu :=
  {| trace := trace s; SREG_I := SREG_I s; SPCR := SPCR s; SPSR := SPSR s;
     _SPCR := _SPCR s; _SPSR := _SPSR s; DDRB := DDRB s; PORTB := PORTB s;
     ss_output := ss_output s; ss_high := b; UNIQUEID := UNIQUEID s |}.

Definition set_UNIQUEID (u : list Z) (s : mcu) : mcu :=
  {| trace := trace s; SREG_I := SREG_I s; SPCR := SPCR s; SPSR := SPSR s;
     _SPCR := _SPCR s; _SPSR := _SPSR s; DDRB := DDRB s; PORTB := PORTB s;
     ss_output := ss_output s; ss_high := ss_high s; UNIQUEID := u |}.

(** A state to start from: nothing logged, interrupts on, chip unselected. *)
Definition power_on : mcu :=
  {| trace := []; SREG_I := true; SPCR := 0; SPSR := 0; _SPCR := 0; _SPSR := 0;
     DDRB := 0; PORTB := 0; ss_output := false; ss_high := true;
     UNIQUEID := [0; 0; 0; 0; 0; 0; 0; 0] |}.

(** ** The monad of driver code

    A computation maps a state to a state and either a result or [None],
    which stands for a loop that was not followed to its end: a busy-wait
    still spinning after [patience] polls (the bounds given to the other
    loops are never reached).  The state that comes with [None] holds the
    log up to that moment. *)

Definition M (A : Type) : Type := mcu -> option A * mcu.

Definition ret {A} (a : A) : M A := fun s => (Some a, s).

Definition bind {A B} (m : M A) (f : A -> M B) : M B :=
  fun s => match m s with
           | (Some a, s') => f a s'
           | (None, s') => (None, s')
           end.

Definition spin {A} : M A := fun s => (None, s).

Definition modify (f : mcu -> mcu) : M unit := fun s => (Some tt, f s).

Definition gets {A} (f : mcu -> A) : M A := fun s => (Some (f s), s).

Declare Scope drv_scope.
Delimit Scope drv_scope with drv.
Notation "x <- m ;; k" := (bind m (fun x => k))
  (at level 62, m at next level, right associativity) : drv_scope.
Notation "m ;;; k" := (bind m (fun _ => k))
  (at level 62, right associativity) : drv_scope.
Local Open Scope drv_scope.

(** The events a computation adds to the log of the state it starts from. *)
Definition bus_trace {A} (m : M A) (s : mcu) : list event :=
  drop (length (trace s)) (trace (snd (m s))).

(** The value a computation returns, if its busy-waits end. *)
Definition result {A} (m : M A) (s : mcu) : option A := fst (m s).

Section Driver.

(** The flash chip seen from the bus: the byte it shifts out during an
    exchange, given everything logged so far and the byte shifted in. *)
Variable chip : list event -> Z -> Z.

(** The SPI library calls of [select] ([setDataMode(SPI_MODE0)],
    [setBitOrder(MSBFIRST)], [setClockDivider(SPI_CLOCK_DIV4)], [begin]),
    as their joint effect on the two SPI registers. *)
Variable spi_flash_settings : Z * Z -> Z * Z.

(** Whether the build defines [__AVR_ATmega32U4__]. *)
Variable ATmega32U4 : bool.

(** How many status polls one busy-wait loop is followed for. *)
Variable patience : nat.

(** The handle the methods are called on. *)
Variable self : SPIFlash.

(** [SPI.transfer(v)]: the argument is converted to a byte, the exchange is
    logged, the byte received is returned. *)
Definition SPI_transfer (v : Z) : M Z := fun s =>
  let tx := to_uint8 v in
  let rx := to_uint8 (chip (trace s) tx) in
  (Some rx, set_trace (fun t => t ++ [Xfer tx rx]) s).

(** [digitalWrite(_slaveSelectPin, level)]; the bus logs the edge. *)
Definition digitalWrite_ss (high : bool) : M unit :=
  modify (fun s =>
    set_trace (fun t => t ++ [if high then Unselect else Select])
              (set_ss_high high s)).

Definition select : M unit :=
  modify (set_SREG_I false) ;;;
  modify (fun s => set_saved (SPCR s) (SPSR s) s) ;;;
  modify (fun s => let r := spi_flash_settings (SPCR s, SPSR s) in
                   set_SPI (fst r) (snd r) s) ;;;
  digitalWrite_ss false.

Definition unselect : M unit :=
  digitalWrite_ss true ;;;
  modify (fun s => set_SPI (_SPCR s) (_SPSR s) s) ;;;
  modify (set_SREG_I true).

Definition readStatus : M Z :=
  select ;;;
  SPI_transfer SPIFLASH_STATUSREAD ;;;
  status <- SPI_transfer 0 ;;
  unselect ;;;
  ret status.

(** [return readStatus() & 1;] converted to [boolean]. *)
Definition busy : M bool :=
  status <- readStatus ;;
  ret (negb (Z.land status 1 =? 0)).

(** [while(busy());] followed for [fuel] polls. *)
Fixpoint busy_wait (fuel : nat) : M unit :=
  match fuel with
  | O => spin
  | S fuel' => b <- busy ;; if b then busy_wait fuel' else ret tt
  end.

(** Modelled from the spec: the default value of the parameter [isWrite] of
    [command], declared in [SPIFlash.h], which is not part of the sources.
    The write-enable transaction is select, opcode, unselect, with no
    write-enable of its own, so the one-argument calls run with [false]. *)
Definition isWrite_default : bool := false.

(** The first lines of [command], compiled on the ATmega32U4 only:
    [DDRB |= B00000001; PORTB |= B00000001;]. *)
Definition command_portB : M unit :=
  if ATmega32U4
  then modify (fun s => set_portB (Z.lor (DDRB s) 1) (Z.lor (PORTB s) 1) s)
  else ret tt.

(** [command(cmd, isWrite)].  The function calls itself for the write
    enable; [depth] is the number of nested calls allowed. *)
Fixpoint command_rec (depth : nat) (cmd : Z) (isWrite : bool) : M unit :=
  command_portB ;;;
  (if isWrite
   then match depth with
        | S depth' =>
            command_rec depth' SPIFLASH_WRITEENABLE isWrite_default ;;;
            unselect
        | O => spin
        end
   else ret tt) ;;;
  busy_wait patience ;;;
  select ;;;
  SPI_transfer cmd ;;;
  ret tt.

(** The nested call runs with [isWrite = false] and calls no further. *)
Definition command (cmd : Z) (isWrite : bool) : M unit :=
  command_rec 1 cmd isWrite.

(** [SPI.transfer(0) << 8] is computed in [int] and stored in a [word]:
    the low 16 bits of the shifted byte. *)
Definition readDeviceId : M Z :=
  (if ATmega32U4
   then command SPIFLASH_IDREAD isWrite_default
   else select ;;; SPI_transfer SPIFLASH_IDREAD ;;; ret tt) ;;;
  hi <- SPI_transfer 0 ;;
  let jedecid := to_uint16 (Z.shiftl hi 8) in
  lo <- SPI_transfer 0 ;;
  let jedecid := to_uint16 (Z.lor jedecid lo) in
  unselect ;;;
  ret jedecid.

Definition sleep : M unit :=
  command SPIFLASH_SLEEP isWrite_default ;;; unselect.

Definition wakeup : M unit :=
  command SPIFLASH_WAKE isWrite_default ;;; unselect.

Definition initialize : M bool :=
  modify (fun s => set_saved (SPCR s) (SPSR s) s) ;;;
  modify (set_ss_output true) ;;;
  unselect ;;;
  wakeup ;;;
  ok <- (if _jedecID self =? 0 then ret true
         else id <- readDeviceId ;; ret (id =? _jedecID self)) ;;
  if ok then
    command SPIFLASH_STATUSWRITE true ;;;
    SPI_transfer 0 ;;;
    unselect ;;;
    ret true
  else ret false.

(** [for (byte i=0;i<8;i++) UNIQUEID[i] = SPI.transfer(0);] with [k]
    rounds to go. *)
Fixpoint readUniqueId_loop (k : nat) (i : Z) : M unit :=
  match k with
  | O => ret tt
  | S k' =>
      b <- SPI_transfer 0 ;;
      modify (fun s => set_UNIQUEID (<[Z.to_nat i := b]> (UNIQUEID s)) s) ;;;
      readUniqueId_loop k' (i + 1)
  end.

Definition readUniqueId : M (list Z) :=
  command SPIFLASH_MACREAD isWrite_default ;;;
  SPI_transfer 0 ;;;
  SPI_transfer 0 ;;;
  SPI_transfer 0 ;;;
  SPI_transfer 0 ;;;
  readUniqueId_loop 8 0 ;;;
  unselect ;;;
  gets UNIQUEID.

(** The three [SPI.transfer(addr >> k)] lines shared by every command
    that takes an address. *)
Definition send_addr (addr : Z) : M unit :=
  SPI_transfer (Z.shiftr addr 16) ;;;
  SPI_transfer (Z.shiftr addr 8) ;;;
  SPI_transfer addr ;;;
  ret tt.

Definition readByte (addr : Z) : M Z :=
  command SPIFLASH_ARRAYREADLOWFREQ isWrite_default ;;;
  send_addr addr ;;;
  r <- SPI_transfer 0 ;;
  unselect ;;;
  ret r.

(** [for (word i = 0; i < len; ++i) buf[i] = SPI.transfer(0);] with [k]
    rounds to go; the buffer is returned. *)
Fixpoint readBytes_loop (k : nat) (i : Z) (buf : list Z) : M (list Z) :=
  match k with
  | O => ret buf
  | S k' =>
      b <- SPI_transfer 0 ;;
      readBytes_loop k' (i + 1) (<[Z.to_nat i := b]> buf)
  end.

Definition readBytes (addr : Z) (buf : list Z) (len : Z) : M (list Z) :=
  command SPIFLASH_ARRAYREAD isWrite_default ;;;
  send_addr addr ;;;
  SPI_transfer 0 ;;;
  buf' <- readBytes_loop (Z.to_nat len) 0 buf ;;
  unselect ;;;
  ret buf'.

Definition writeByte (addr : Z) (byt : Z) : M unit :=
  command SPIFLASH_BYTEPAGEPROGRAM true ;;;
  send_addr addr ;;;
  SPI_transfer byt ;;;
  unselect.

(** [for (uint16_t i = 0; i < n; i++) SPI.transfer(buf[offset + i]);]
    with [k] rounds to go. *)
Fixpoint writeBytes_send (k : nat) (i : Z) (buf : list Z) (offset : Z) : M unit :=
  match k with
  | O => ret tt
  | S k' =>
      SPI_transfer (nth (Z.to_nat (to_uint16 (offset + i))) buf 0) ;;;
      writeBytes_send k' (i + 1) buf offset
  end.

(** The [while (len>0)] loop of [writeBytes], with [k] rounds allowed.  A
    round takes at least one byte off [len] as long as [maxBytes] is not 0,
    so [len] rounds are always enough.  [addr+=n] is written with the
    wrap-around of a 32-bit [long]; [offset] and [len] are [uint16_t]. *)
Fixpoint writeBytes_loop (k : nat) (addr : Z) (buf : list Z)
         (len maxBytes offset : Z) : M unit :=
  if 0 <? len then
    match k with
    | O => spin
    | S k' =>
        let n := if len <=? maxBytes then len else maxBytes in
        command SPIFLASH_BYTEPAGEPROGRAM true ;;;
        send_addr addr ;;;
        writeBytes_send (Z.to_nat n) 0 buf offset ;;;
        unselect ;;;
        writeBytes_loop k' (to_long (addr + n)) buf
                        (to_uint16 (len - n)) 256 (to_uint16 (offset + n))
    end
  else ret tt.

(** [uint16_t maxBytes = 256-(addr%256);]: [%] on a [long] truncates
    towards zero, so the remainder has the sign of [addr]. *)
Definition first_maxBytes (addr : Z) : Z :=
  to_uint16 (256 - Z.rem addr 256).

Definition writeBytes (addr : Z) (buf : list Z) (len : Z) : M unit :=
  writeBytes_loop (Z.to_nat len) addr buf len (first_maxBytes addr) 0.

Definition chipErase : M unit :=
  command SPIFLASH_CHIPERASE true ;;; unselect.

Definition blockErase4K (addr : Z) : M unit :=
  command SPIFLASH_BLOCKERASE_4K true ;;;
  send_addr addr ;;;
  unselect.

Definition blockErase32K (addr : Z) : M unit :=
  command SPIFLASH_BLOCKERASE_32K true ;;;
  send_addr addr ;;;
  unselect.

End Driver.

(** ** Reading the log as transactions *)

(** A transaction is what lies between a select and the next unselect: the
    list of byte exchanges, each as (byte sent, byte received). *)
Definition frame : Type := list (Z * Z).

Definition frame_events (f : frame) : list event :=
  Select :: map (fun x => Xfer (fst x) (snd x)) f ++ [Unselect].

Definition render (fs : list frame) : list event :=
  concat (map frame_events fs).

(** The completed transactions of a log, in order.  [cur] is the transaction
    under way, newest exchange first; exchanges and unselects outside a
    transaction are skipped, an unfinished transaction is dropped. *)
Fixpoint frames_from (cur : option frame) (t : list event) : list frame :=
  match t with
  | [] => []
  | Select :: t' => frames_from (Some []) t'
  | Xfer a b :: t' =>
      frames_from (match cur with Some f => Some ((a, b) :: f) | None => None end) t'
  | Unselect :: t' =>
      match cur with
      | Some f => rev f :: frames_from None t'
      | None => frames_from None t'
      end
  end.

Definition frames (t : list event) : list frame := frames_from None t.

(** The opcode of a transaction is the first byte sent in it. *)
Definition opcode (f : frame) : option Z :=
  match f with
  | [] => None
  | x :: _ => Some (fst x)
  end.

(** The bytes sent after the opcode, and all bytes received. *)
Definition sent (f : frame) : list Z := map fst f.
Definition received (f : frame) : list Z := map snd f.

(** A status poll, as [readStatus] performs it, with the status received. *)
Definition poll_frame (x status : Z) : frame :=
  [(SPIFLASH_STATUSREAD, x); (0, status)].

Definition is_poll (f : frame) : Prop :=
  exists x status, f = poll_frame x status.

Definition is_busy_poll (f : frame) : Prop :=
  exists x status, f = poll_frame x status /\ Z.land status 1 <> 0.

Definition is_ready_poll (f : frame) : Prop :=
  exists x status, f = poll_frame x status /\ Z.land status 1 = 0.

(** What one busy-wait puts on the bus when it ends: busy polls, then one
    poll that reads the busy bit clear. *)
Definition ready_polls (p : list frame) : Prop :=
  exists p' f, p = p' ++ [f] /\ Forall is_busy_poll p' /\ is_ready_poll f.

(** The write-enable transaction. *)
Definition we_frame (x : Z) : frame := [(SPIFLASH_WRITEENABLE, x)].

(** The opcodes that change the chip. *)
Definition mutating (c : Z) : bool :=
  (c =? SPIFLASH_STATUSWRITE) || (c =? SPIFLASH_BYTEPAGEPROGRAM) ||
  (c =? SPIFLASH_BLOCKERASE_4K) || (c =? SPIFLASH_BLOCKERASE_32K) ||
  (c =? SPIFLASH_CHIPERASE).

(** Select and unselect calls in a log. *)
Definition is_select (e : event) : bool :=
  match e with Select => true | _ => false end.
Definition is_unselect (e : event) : bool :=
  match e with Unselect => true | _ => false end.

Definition selects (t : list event) : nat := length (filter is_select t).
Definition unselects (t : list event) : nat := length (filter is_unselect t).

(** The three address bytes of a command, high byte first. *)
Definition addr_bytes (a : Z) : list Z :=
  [Z.land (Z.shiftr a 16) 255; Z.land (Z.shiftr a 8) 255; Z.land a 255].

(** A chip that answers within the patience granted: from every log, the
    busy-wait ends. *)
Definition responsive (chip : list event -> Z -> Z)
           (cfg : Z * Z -> Z * Z) (patience : nat) : Prop :=
  forall s, result (busy_wait chip cfg patience) s = Some tt.

(** A chip that is never busy: it answers 0 to everything. *)
Definition idle_chip (_ : list event) (_ : Z) : Z := 0.

(** A chip that is never busy and answers JEDEC-ID with the manufacturer
    byte [m] and then the device byte [d]. *)
Definition jedec_chip (m d : Z) (h : list event) (_ : Z) : Z :=
  match rev h with
  | Xfer 0x9F _ :: _ => m
  | Xfer 0 _ :: Xfer 0x9F _ :: _ => d
  | _ => 0
  end.

(** No chip at all, the data line floating high: every byte reads 0xFF. *)
Definition absent_chip (_ : list event) (_ : Z) : Z := 0xFF.

(** SPI settings that leave the registers alone. *)
Definition no_settings (r : Z * Z) : Z * Z := r.

(** The exchanges of a transaction as events. *)
Definition xfers (f : frame) : list event :=
  map (fun x => Xfer (fst x) (snd x)) f.

(** What precedes the opcode of [command(cmd, isWrite)] on the bus when the
    busy-waits end: for a write, a busy-wait, the write-enable transaction
    and a second busy-wait; otherwise one busy-wait. *)
Definition lead (w : bool) (l : list frame) : Prop :=
  if w
  then exists p1 x p2, l = p1 ++ [we_frame x] ++ p2 /\ ready_polls p1 /\ ready_polls p2
  else ready_polls l.

(** What [command] leaves on the bus when one of its busy-waits is still
    spinning at the end of the patience. *)
Definition stalled (w : bool) (l : list frame) : Prop :=
  Forall is_busy_poll l \/
  (w = true /\ exists p1 x p2,
      l = p1 ++ [we_frame x] ++ p2 /\ ready_polls p1 /\ Forall is_busy_poll p2).

(** The outcome of an operation that is one command, as transactions: when
    the operation returns [a] they are the lead and the transaction of the
    command, which satisfies [P] together with [a]; when it does not return,
    a busy-wait of the lead is still spinning. *)
Definition outcome {A} (w : bool) (c : Z) (P : frame -> A -> Prop)
           (r : option A) (fs : list frame) : Prop :=
  match r with
  | Some a => exists l f, fs = l ++ [f] /\ lead w l /\ opcode f = Some c /\ P f a
  | None => stalled w fs
  end.

(** The same on the log: it is made of whole transactions. *)
Definition framed {A} (w : bool) (c : Z) (P : frame -> A -> Prop)
           (r : option A) (t : list event) : Prop :=
  exists fs, t = render fs /\ outcome w c P r fs.

(** The transaction of [readDeviceId]: the opcode, then two bytes clocked
    in, manufacturer [m] first and device [d] second. *)
Definition id_frame (x m d : Z) : frame :=
  [(SPIFLASH_IDREAD, x); (0, m); (0, d)].

(** [readDeviceId] returning [id]: the identifier transaction, with a
    busy-wait before it on the ATmega32U4 only. *)
Definition id_read (u4 : bool) (fs : list frame) (id : Z) : Prop :=
  exists l x m d,
    fs = l ++ [id_frame x m d] /\
    (if u4 then ready_polls l else l = []) /\
    0 <= m < 256 /\ 0 <= d < 256 /\
    id = Z.lor (Z.shiftl m 8) d.

(** The wake-up of [initialize] and its global unprotect, as outcomes. *)
Definition wake_outcome : option unit -> list frame -> Prop :=
  outcome false SPIFLASH_WAKE (fun f _ => sent f = [SPIFLASH_WAKE]).

Definition unprotect_outcome : option bool -> list frame -> Prop :=
  outcome true SPIFLASH_STATUSWRITE
          (fun f b => sent f = [SPIFLASH_STATUSWRITE; 0] /\ b = true).

(** What [initialize] puts on the bus after its first unselect, for a handle
    that expects [jedec]: the wake-up; the identifier read unless [jedec] is
    0; the unprotect unless the identifier differs. *)
Inductive init_trace (u4 : bool) (jedec : Z) : option bool -> list frame -> Prop :=
  | it_wake_stall l :
      wake_outcome None l -> init_trace u4 jedec None l
  | it_id_stall wk l :
      wake_outcome (Some tt) wk -> jedec <> 0 -> u4 = true -> stalled false l ->
      init_trace u4 jedec None (wk ++ l)
  | it_mismatch wk idp id :
      wake_outcome (Some tt) wk -> jedec <> 0 ->
      id_read u4 idp id -> id <> jedec ->
      init_trace u4 jedec (Some false) (wk ++ idp)
  | it_match wk idp r sw :
      wake_outcome (Some tt) wk -> jedec <> 0 ->
      id_read u4 idp jedec -> unprotect_outcome r sw ->
      init_trace u4 jedec r (wk ++ idp ++ sw)
  | it_unchecked wk r sw :
      wake_outcome (Some tt) wk -> jedec = 0 -> unprotect_outcome r sw ->
      init_trace u4 jedec r (wk ++ sw).

(** ** The page split of [writeBytes] *)

(** The arithmetic of the [while] loop of [writeBytes] on its own: the
    bursts the loop goes through in [k] rounds, each as (address, offset into
    the buffer, number of bytes). *)
Fixpoint burst_plan (k : nat) (addr len maxBytes offset : Z) : list (Z * Z * Z) :=
  if 0 <? len then
    match k with
    | O => []
    | S k' =>
        let n := if len <=? maxBytes then len else maxBytes in
        (addr, offset, n)
          :: burst_plan k' (to_long (addr + n)) (to_uint16 (len - n)) 256
                        (to_uint16 (offset + n))
    end
  else [].

(** The bytes the [for] loop of one burst sends. *)
Definition burst_bytes (buf : list Z) (offset n : Z) : list Z :=
  map (fun i => to_uint8 (nth (Z.to_nat (to_uint16 (offset + i))) buf 0))
      (seqZ 0 n).

(** The log of the [while] loop as transactions, along the plan: every burst
    is a lead and a program transaction; the loop returns at the end of the
    plan, or stops with a busy-wait spinning or its rounds used up. *)
Inductive loop_trace (buf : list Z) :
  list (Z * Z * Z) -> option unit -> list frame -> Prop :=
  | lt_done : loop_trace buf [] (Some tt) []
  | lt_rounds : loop_trace buf [] None []
  | lt_stall b pl l : stalled true l -> loop_trace buf (b :: pl) None l
  | lt_burst a off n pl l f r fs :
      lead true l ->
      sent f = SPIFLASH_BYTEPAGEPROGRAM :: addr_bytes a ++ burst_bytes buf off n ->
      loop_trace buf pl r fs ->
      loop_trace buf ((a, off, n) :: pl) r (l ++ [f] ++ fs).

(** A program burst: the address it starts at and the bytes it carries. *)
Definition burst : Type := (Z * list Z)%type.

(** The bursts tile the addresses from [a] up to [e]: each starts where the
    one before it ended, and none is empty. *)
Fixpoint tiles (a : Z) (bs : list burst) (e : Z) : Prop :=
  match bs with
  | [] => a = e
  | b :: bs' =>
      fst b = a /\ snd b <> [] /\ tiles (a + Z.of_nat (length (snd b))) bs' e
  end.

(** First and last byte of the burst lie in the same 256-byte page. *)
Definition in_one_page (b : burst) : Prop :=
  fst b / 256 = (fst b + Z.of_nat (length (snd b)) - 1) / 256.

(** The first burst has at most [256 - addr mod 256] bytes, the others at
    most 256. *)
Definition sizes_ok (addr : Z) (bs : list burst) : Prop :=
  match bs with
  | [] => True
  | b :: bs' =>
      Z.of_nat (length (snd b)) <= 256 - addr mod 256 /\
      Forall (fun b' : burst => Z.of_nat (length (snd b')) <= 256) bs'
  end.

(** The page-split law for a write of [buf] at [addr]. *)
Definition page_split (addr : Z) (buf : list Z) (bs : list burst) : Prop :=
  tiles addr bs (addr + Z.of_nat (length buf)) /\
  Forall in_one_page bs /\
  sizes_ok addr bs /\
  concat (map snd bs) = buf.

(** The program transaction of a burst on the wire. *)
Definition on_wire (b : burst) (f : frame) : Prop :=
  sent f = SPIFLASH_BYTEPAGEPROGRAM :: addr_bytes (fst b) ++ map to_uint8 (snd b).

(** The transactions of a list that start with a given opcode. *)
Definition with_opcode (c : Z) (fs : list frame) : list frame :=
  filter (fun f => opcode f = Some c) fs.

(** ** The sequencing rules, on lists of transactions *)

(** Every transaction with a mutating opcode comes right after a
    write-enable transaction. *)
Definition we_immediately_before (fs : list frame) : Prop :=
  forall pre f post c,
    fs = pre ++ f :: post -> opcode f = Some c -> mutating c = true ->
    exists pre' x, pre = pre' ++ [we_frame x].

(** What has gone before ends with a write-enable transaction and one
    busy-wait: status polls, the last of them ready, and nothing else. *)
Definition enabled (pre : list frame) : Prop :=
  exists pre' x p, pre = pre' ++ [we_frame x] ++ p /\ ready_polls p.

(** Every transaction with a mutating opcode comes after a write-enable
    transaction, with one busy-wait and nothing else in between. *)
Definition we_guarded (fs : list frame) : Prop :=
  forall pre f post c,
    fs = pre ++ f :: post -> opcode f = Some c -> mutating c = true ->
    enabled pre.

(** What has gone before holds a status read, and the last one had the busy
    bit clear. *)
Definition polled (pre : list frame) : Prop :=
  exists pre' f0 mid,
    pre = pre' ++ [f0] ++ mid /\ is_ready_poll f0 /\
    Forall (fun g => opcode g <> Some SPIFLASH_STATUSREAD) mid.

(** Every transaction that is not itself a status read comes after a status
    read, and the last status read before it had the busy bit clear; [ctx]
    is what went before the list. *)
Definition busy_checked_after (ctx fs : list frame) : Prop :=
  forall pre f post c,
    fs = pre ++ f :: post -> opcode f = Some c -> c <> SPIFLASH_STATUSREAD ->
    polled (ctx ++ pre).

Definition busy_checked (fs : list frame) : Prop := busy_checked_after [] fs.

(** A computation returns: none of its busy-waits outlasts the patience. *)
Definition returns {A} (m : M A) : Prop :=
  forall s, exists a, result m s = Some a.

(** The public operations, as calls with their arguments. *)
Inductive call : Type :=
  | Initialize
  | ReadDeviceId
  | ReadUniqueId
  | ReadByte (addr : Z)
  | ReadBytes (addr : Z) (buf : list Z) (len : Z)
  | ReadStatus
  | Busy
  | WriteByte (addr byt : Z)
  | WriteBytes (addr : Z) (buf : list Z) (len : Z)
  | ChipErase
  | BlockErase4K (addr : Z)
  | BlockErase32K (addr : Z)
  | Sleep
  | Wakeup.

(** Running a call for its effect on the bus; the value returned is dropped. *)
Definition perform (chip : list event -> Z -> Z) (cfg : Z * Z -> Z * Z)
           (u4 : bool) (patience : nat) (self : SPIFlash) (c : call) : M unit :=
  match c with
  | Initialize => _ <- initialize chip cfg u4 patience self ;; ret tt
  | ReadDeviceId => _ <- readDeviceId chip cfg u4 patience ;; ret tt
  | ReadUniqueId => _ <- readUniqueId chip cfg u4 patience ;; ret tt
  | ReadByte a => _ <- readByte chip cfg u4 patience a ;; ret tt
  | ReadBytes a buf len => _ <- readBytes chip cfg u4 patience a buf len ;; ret tt
  | ReadStatus => _ <- readStatus chip cfg ;; ret tt
  | Busy => _ <- busy chip cfg ;; ret tt
  | WriteByte a b => writeByte chip cfg u4 patience a b
  | WriteBytes a buf len => writeBytes chip cfg u4 patience a buf len
  | ChipErase => chipErase chip cfg u4 patience
  | BlockErase4K a => blockErase4K chip cfg u4 patience a
  | BlockErase32K a => blockErase32K chip cfg u4 patience a
  | Sleep => sleep chip cfg u4 patience
  | Wakeup => wakeup chip cfg u4 patience
  end.

(** What [initialize] logs before its first transaction. *)
Definition preamble (c : call) : list event :=
  match c with
  | Initialize => [Unselect]
  | _ => []
  end.

(** Whether a call waits for the chip before every opcode it sends:
    [readDeviceId] does so on the ATmega32U4 only. *)
Definition checks_busy (u4 : bool) (c : call) : bool :=
  match c with
  | ReadDeviceId => u4
  | _ => true
  end.

(** The calls that send an address, with the opcode that the address
    follows; a [writeBytes] of no bytes sends nothing. *)
Definition addressed (c : call) : option (Z * Z) :=
  match c with
  | ReadByte a => Some (SPIFLASH_ARRAYREADLOWFREQ, a)
  | ReadBytes a _ _ => Some (SPIFLASH_ARRAYREAD, a)
  | WriteByte a _ => Some (SPIFLASH_BYTEPAGEPROGRAM, a)
  | WriteBytes a _ len =>
      if 0 <? len then Some (SPIFLASH_BYTEPAGEPROGRAM, a) else None
  | BlockErase4K a => Some (SPIFLASH_BLOCKERASE_4K, a)
  | BlockErase32K a => Some (SPIFLASH_BLOCKERASE_32K, a)
  | _ => None
  end.

(** The bursts of a plan, with the slices of the buffer they carry. *)
Definition plan_bursts (buf : list Z) (pl : list (Z * Z * Z)) : list burst :=
  map (fun e => (fst (fst e),
                 take (Z.to_nat (snd e)) (drop (Z.to_nat (snd (fst e))) buf))) pl.

(** Whether an outcome is a return. *)
Definition returned {A} (r : option A) : bool :=
  match r with
  | Some _ => true
  | None => false
  end.

(** The transaction that carries the address, when the call returns. *)
Definition carries (op a : Z) (ok : bool) (t : list event) : Prop :=
  exists fs, t = render fs /\
    (ok = true ->
     exists l f post rest,
       fs = l ++ f :: post /\
       Forall (fun g => opcode g <> Some op) l /\
       sent f = op :: addr_bytes a ++ rest).

(** ** The state a call leaves behind *)

(** The weakest precondition of a computation at a state: [Q] holds of what
    it returns and of the state it leaves. *)
Definition wp {A} (m : M A) (s : mcu) (Q : option A -> mcu -> Prop) : Prop :=
  Q (fst (m s)) (snd (m s)).



(** A computation keeps a relation between the state it starts in and the
    state it leaves, whatever it returns. *)
Definition keeps {A} (X : mcu -> mcu -> Prop) (m : M A) : Prop :=
  forall s, X s (snd (m s)).


(** A chip whose status always reads busy, as a floating data line does. *)
Definition always_busy (chip : list event -> Z -> Z) : Prop :=
  forall h tx, Z.land (to_uint8 (chip h tx)) 1 <> 0.

(** The calls that begin by waiting for the chip. *)
Definition waits_first (u4 : bool) (c : call) : bool :=
  match c with
  | ReadStatus | Busy => false
  | ReadDeviceId => u4
  | WriteBytes _ _ len => 0 <? len
  | _ => true
  end.

(** The bytes sent in the transaction of a call that is one command and
    reads nothing back. *)
Definition wire_bytes (c : call) : option (list Z) :=
  match c with
  | WriteByte a b =>
      Some (SPIFLASH_BYTEPAGEPROGRAM :: addr_bytes a ++ [to_uint8 b])
  | ChipErase => Some [SPIFLASH_CHIPERASE]
  | BlockErase4K a => Some (SPIFLASH_BLOCKERASE_4K :: addr_bytes a)
  | BlockErase32K a => Some (SPIFLASH_BLOCKERASE_32K :: addr_bytes a)
  | Sleep => Some [SPIFLASH_SLEEP]
  | Wakeup => Some [SPIFLASH_WAKE]
  | _ => None
  end.

(** The pages a write of [len] bytes at [addr] touches. *)
Definition pages_touched (addr len : Z) : Z :=
  if 0 <? len then (addr + len - 1) / 256 - addr / 256 + 1 else 0.





(** A computation that logs [pre] and then polls a busy chip to the end of
    the patience [n], sending nothing else and returning nothing. *)
Definition hangs_after {A} (n : nat) (pre : list event) (m : M A) : Prop :=
  forall s, result m s = None /\
    exists p, trace (snd (m s)) = trace s ++ pre ++ render p /\
              Forall is_busy_poll p /\ length p = n.

(** A step that returns and logs [pre]. *)
Definition logs {A} (pre : list event) (m : M A) : Prop :=
  forall s, exists a, result m s = Some a /\
                      trace (snd (m s)) = trace s ++ pre.




(** ** A logic of logs

    [triple m h Q]: started in any state whose log is [h], the computation
    [m] extends the log by some [t] and gives a result [r] with [Q r t]. *)
Definition triple {A} (m : M A) (h : list event)
           (Q : option A -> list event -> Prop) : Prop :=
  forall s, trace s = h ->
    exists t, trace (snd (m s)) = h ++ t /\ Q (fst (m s)) t.

Lemma bus_trace_app {A} (m : M A) (s : mcu) (t : list event) :
  trace (snd (m s)) = trace s ++ t -> bus_trace m s = t.
Proof.
  intros E. unfold bus_trace. rewrite E. apply drop_app_length.
Qed.

Lemma triple_elim {A} (m : M A) (s : mcu) Q :
  triple m (trace s) Q -> Q (result m s) (bus_trace m s).
Proof.
  intros H. destruct (H s eq_refl) as (t & E & HQ).
  rewrite (bus_trace_app m s t E). exact HQ.
Qed.

Lemma triple_mono {A} (m : M A) h (Q Q' : option A -> list event -> Prop) :
  triple m h Q -> (forall r t, Q r t -> Q' r t) -> triple m h Q'.
Proof.
  intros H HQ s E. destruct (H s E) as (t & Et & Ht). eauto.
Qed.

Lemma triple_ret {A} (a : A) h (Q : option A -> list event -> Prop) :
  Q (Some a) [] -> triple (ret a) h Q.
Proof.
  intros HQ s E. exists []. cbn. rewrite app_nil_r. auto.
Qed.

Lemma triple_spin {A} h (Q : option A -> list event -> Prop) :
  Q None [] -> triple spin h Q.
Proof.
  intros HQ s E. exists []. cbn. rewrite app_nil_r. auto.
Qed.

Lemma triple_bind {A B} (m : M A) (f : A -> M B) h
      (Q : option B -> list event -> Prop) :
  triple m h (fun r t1 =>
    match r with
    | None => Q None t1
    | Some a => triple (f a) (h ++ t1) (fun r' t2 => Q r' (t1 ++ t2))
    end) ->
  triple (bind m f) h Q.
Proof.
  intros H s E. destruct (H s E) as (t1 & E1 & H1).
  unfold bind. destruct (m s) as [[a|] s1]; cbn in *.
  - destruct (H1 s1 E1) as (t2 & E2 & H2).
    exists (t1 ++ t2). rewrite E2, app_assoc. auto.
  - exists t1. auto.
Qed.

(** A state change that leaves the log alone. *)
Lemma triple_modify (f : mcu -> mcu) h (Q : option unit -> list event -> Prop) :
  (forall s, trace (f s) = trace s) -> Q (Some tt) [] -> triple (modify f) h Q.
Proof.
  intros Hf HQ s E. exists []. cbn. rewrite Hf, app_nil_r. auto.
Qed.

Lemma triple_gets {A} (f : mcu -> A) h (Q : option A -> list event -> Prop) :
  (forall a, Q (Some a) []) -> triple (gets f) h Q.
Proof.
  intros HQ s E. exists []. cbn. rewrite app_nil_r. auto.
Qed.

Section Logic.

Variable chip : list event -> Z -> Z.
Variable cfg : Z * Z -> Z * Z.
Variable u4 : bool.
Variable patience : nat.
Variable self : SPIFlash.

(** One exchange: whatever byte the chip answers, it is logged. *)
Lemma triple_transfer v h (Q : option Z -> list event -> Prop) :
  (forall rx, 0 <= rx < 256 -> Q (Some rx) [Xfer (to_uint8 v) rx]) ->
  triple (SPI_transfer chip v) h Q.
Proof.
  intros HQ s E. eexists. cbn. rewrite E. split; [reflexivity|].
  apply HQ. unfold to_uint8. apply Z.mod_pos_bound. lia.
Qed.

Lemma triple_select h (Q : option unit -> list event -> Prop) :
  Q (Some tt) [Select] -> triple (select cfg) h Q.
Proof.
  intros HQ s E. exists [Select]. cbn. rewrite E. auto.
Qed.

Lemma triple_unselect h (Q : option unit -> list event -> Prop) :
  Q (Some tt) [Unselect] -> triple unselect h Q.
Proof.
  intros HQ s E. exists [Unselect]. cbn. rewrite E. auto.
Qed.

End Logic.

(** ** Rendering and parsing transactions *)

Lemma render_cons f fs : render (f :: fs) = frame_events f ++ render fs.
Proof. reflexivity. Qed.

Lemma render_app fs gs : render (fs ++ gs) = render fs ++ render gs.
Proof. unfold render. now rewrite map_app, concat_app. Qed.

Lemma render_one f : render [f] = frame_events f.
Proof. unfold render. cbn [map concat]. apply app_nil_r. Qed.

Lemma frame_events_open c x (pl : frame) :
  [Select; Xfer c x] ++ xfers pl ++ [Unselect] = frame_events ((c, x) :: pl).
Proof. reflexivity. Qed.

Lemma frames_from_xfers (f g : frame) t :
  frames_from (Some g) (xfers f ++ t) = frames_from (Some (rev f ++ g)) t.
Proof.
  revert g. induction f as [|[a b] f IH]; intros g; cbn; [reflexivity|].
  rewrite IH. now rewrite <- app_assoc.
Qed.

Lemma frames_from_frame f t :
  frames_from None (frame_events f ++ t) = f :: frames_from None t.
Proof.
  unfold frame_events. cbn. fold (xfers f). rewrite <- app_assoc.
  rewrite frames_from_xfers. cbn. now rewrite app_nil_r, rev_involutive.
Qed.

Lemma frames_render_app fs t :
  frames (render fs ++ t) = fs ++ frames t.
Proof.
  unfold frames. induction fs as [|f fs IH]; [reflexivity|].
  rewrite render_cons, <- app_assoc, frames_from_frame. cbn. now rewrite IH.
Qed.

Lemma frames_render fs : frames (render fs) = fs.
Proof.
  rewrite <- (app_nil_r (render fs)), frames_render_app. cbn. apply app_nil_r.
Qed.

Lemma frames_unselect t : frames (Unselect :: t) = frames t.
Proof. reflexivity. Qed.

Lemma selects_app t u : selects (t ++ u) = (selects t + selects u)%nat.
Proof. unfold selects. now rewrite filter_app, length_app. Qed.

Lemma unselects_app t u : unselects (t ++ u) = (unselects t + unselects u)%nat.
Proof. unfold unselects. now rewrite filter_app, length_app. Qed.

Lemma selects_xfers f : selects (xfers f) = 0%nat.
Proof. induction f as [|[a b] f IH]; [reflexivity|exact IH]. Qed.

Lemma unselects_xfers f : unselects (xfers f) = 0%nat.
Proof. induction f as [|[a b] f IH]; [reflexivity|exact IH]. Qed.

Lemma selects_render fs : selects (render fs) = length fs.
Proof.
  induction fs as [|f fs IH]; [reflexivity|].
  rewrite render_cons, selects_app, IH.
  change (frame_events f) with ([Select] ++ xfers f ++ [Unselect]).
  rewrite (selects_app [Select]), (selects_app (xfers f)), selects_xfers.
  reflexivity.
Qed.

Lemma unselects_render fs : unselects (render fs) = length fs.
Proof.
  induction fs as [|f fs IH]; [reflexivity|].
  rewrite render_cons, unselects_app, IH.
  change (frame_events f) with ([Select] ++ xfers f ++ [Unselect]).
  rewrite (unselects_app [Select]), (unselects_app (xfers f)), unselects_xfers.
  reflexivity.
Qed.

(** ** Bytes *)

Lemma to_uint8_land z : to_uint8 z = Z.land z 255.
Proof.
  unfold to_uint8. change 255 with (Z.ones 8).
  rewrite Z.land_ones by lia. reflexivity.
Qed.

(** ** What the building blocks put on the bus *)

Ltac tstep :=
  lazymatch goal with
  | |- triple (bind _ _) _ _ => apply triple_bind
  | |- triple (SPI_transfer _ _) _ _ => apply triple_transfer; intros ? ?
  | |- triple (select _) _ _ => apply triple_select
  | |- triple unselect _ _ => apply triple_unselect
  | |- triple (ret _) _ _ => apply triple_ret
  | |- triple spin _ _ => apply triple_spin
  | |- triple (modify _) _ _ => apply triple_modify; [reflexivity|]
  | |- triple (gets _) _ _ => apply triple_gets; intros ?
  end;
  lazy beta iota zeta.

Ltac tsteps := repeat tstep.

Section Shapes.

Variable chip : list event -> Z -> Z.
Variable cfg : Z * Z -> Z * Z.
Variable u4 : bool.
Variable patience : nat.
Variable self : SPIFlash.

Lemma readStatus_poll h (Q : option Z -> list event -> Prop) :
  (forall x st, Q (Some st) (frame_events (poll_frame x st))) ->
  triple (readStatus chip cfg) h Q.
Proof.
  intros HQ. unfold readStatus. tsteps. apply HQ.
Qed.

Lemma busy_poll h (Q : option bool -> list event -> Prop) :
  (forall x st,
      Q (Some (negb (Z.land st 1 =? 0))) (frame_events (poll_frame x st))) ->
  triple (busy chip cfg) h Q.
Proof.
  intros HQ. unfold busy. tstep. apply readStatus_poll. intros x st.
  tstep. rewrite app_nil_r. apply HQ.
Qed.

Lemma busy_wait_polls fuel h :
  triple (busy_wait chip cfg fuel) h (fun r t =>
    exists p, t = render p /\
      match r with
      | Some _ => ready_polls p
      | None => Forall is_busy_poll p
      end).
Proof.
  revert h. induction fuel as [|fuel IH]; intros h; cbn [busy_wait].
  - tstep. exists []. split; [reflexivity|constructor].
  - tstep. apply busy_poll. intros x st.
    destruct (Z.eqb_spec (Z.land st 1) 0) as [E|E]; cbn [negb].
    + tstep. exists [poll_frame x st]. split.
      * now rewrite app_nil_r, render_one.
      * exists [], (poll_frame x st). repeat split; [constructor|].
        exists x, st. auto.
    + eapply triple_mono; [apply IH|]. intros r t (p & -> & Hp).
      exists (poll_frame x st :: p). split; [now rewrite render_cons|].
      assert (Hb : is_busy_poll (poll_frame x st)) by (exists x, st; auto).
      destruct r.
      * destruct Hp as (p' & f & -> & Hp' & Hf).
        exists (poll_frame x st :: p'), f. repeat split; auto.
      * constructor; auto.
Qed.

Lemma command_portB_silent h (Q : option unit -> list event -> Prop) :
  Q (Some tt) [] -> triple (command_portB u4) h Q.
Proof. intros HQ. unfold command_portB. destruct u4; tstep; exact HQ. Qed.

Lemma command_rec_S depth c w :
  command_rec chip cfg u4 patience (S depth) c w =
  (command_portB u4 ;;;
   (if w
    then command_rec chip cfg u4 patience depth SPIFLASH_WRITEENABLE
                     isWrite_default ;;;
         unselect
    else ret tt) ;;;
   busy_wait chip cfg patience ;;;
   select cfg ;;;
   SPI_transfer chip c ;;;
   ret tt).
Proof. reflexivity. Qed.

(** A call of [command] that is no write: one busy-wait, then the opcode. *)
Lemma command_read_shape depth c h :
  triple (command_rec chip cfg u4 patience depth c false) h (fun r t =>
    match r with
    | Some _ => exists p x, ready_polls p /\
                            t = render p ++ [Select; Xfer (to_uint8 c) x]
    | None => exists p, Forall is_busy_poll p /\ t = render p
    end).
Proof.
  destruct depth; cbn [command_rec]; tstep; apply command_portB_silent;
    tstep; tstep; tstep;
    (eapply triple_mono; [apply busy_wait_polls|]);
    intros [[]|] t (p & -> & Hp); cbn [app].
  - tsteps. eexists p, _. split; [exact Hp|]. now rewrite app_nil_r.
  - exists p. auto.
  - tsteps. eexists p, _. split; [exact Hp|]. now rewrite app_nil_r.
  - exists p. auto.
Qed.

Lemma command_shape c w h :
  triple (command chip cfg u4 patience c w) h (fun r t =>
    match r with
    | Some _ => exists l x, lead w l /\
                            t = render l ++ [Select; Xfer (to_uint8 c) x]
    | None => exists l, stalled w l /\ t = render l
    end).
Proof.
  unfold command. destruct w.
  - rewrite command_rec_S. tstep. apply command_portB_silent. tstep. tstep.
    eapply triple_mono; [apply command_read_shape|].
    intros [[]|] t1 H1.
    + destruct H1 as (p1 & x1 & Hp1 & ->). tstep. tstep.
      eapply triple_mono; [apply busy_wait_polls|].
      intros [[]|] t2 (p2 & -> & Hp2).
      * tsteps. exists (p1 ++ [we_frame x1] ++ p2), rx. split.
        -- exists p1, x1, p2. auto.
        -- rewrite !render_app, render_one. cbn.
           rewrite <- ?app_assoc. cbn. rewrite ?app_nil_r. reflexivity.
      * exists (p1 ++ [we_frame x1] ++ p2). split.
        -- right. split; [reflexivity|]. exists p1, x1, p2. auto.
        -- rewrite !render_app, render_one. cbn.
           rewrite <- ?app_assoc. cbn. rewrite ?app_nil_r. reflexivity.
    + destruct H1 as (p1 & Hp1 & ->). exists p1. split; [now left|].
      reflexivity.
  - eapply triple_mono; [apply command_read_shape|].
    intros [[]|] t H.
    + destruct H as (p & x & Hp & ->). exists p, x. auto.
    + destruct H as (p & Hp & ->). exists p. split; [now left|reflexivity].
Qed.

Lemma send_addr_bytes a h (Q : option unit -> list event -> Prop) :
  (forall pl, sent pl = addr_bytes a -> Q (Some tt) (xfers pl)) ->
  triple (send_addr chip a) h Q.
Proof.
  intros HQ. unfold send_addr. tsteps.
  match goal with
  | |- Q _ ([Xfer ?a ?x] ++ [Xfer ?b ?y] ++ [Xfer ?c ?z] ++ []) =>
      apply (HQ [(a, x); (b, y); (c, z)])
  end.
  unfold sent, addr_bytes. cbn [map fst]. now rewrite !to_uint8_land.
Qed.

(** A command, what follows its opcode, and the unselect. *)
Lemma command_framed {A} c w (body : M A) (P : frame -> A -> Prop) h :
  (forall h' x, triple body h' (fun r t =>
      exists pl a, r = Some a /\ t = xfers pl ++ [Unselect] /\
                   P ((to_uint8 c, x) :: pl) a)) ->
  triple (command chip cfg u4 patience c w ;;; body) h
         (framed w (to_uint8 c) P).
Proof.
  intros Hbody. tstep. eapply triple_mono; [apply command_shape|].
  intros [[]|] t H.
  - destruct H as (l & x & Hl & ->).
    eapply triple_mono; [apply (Hbody _ x)|].
    intros r t (pl & a & -> & -> & HP).
    exists (l ++ [(to_uint8 c, x) :: pl]). split.
    + rewrite render_app, render_one, <- frame_events_open.
      now rewrite <- !app_assoc.
    + exists l, ((to_uint8 c, x) :: pl). repeat split; auto.
  - destruct H as (l & Hl & ->). exists l. split; [reflexivity|exact Hl].
Qed.

Lemma xfers_app f g : xfers (f ++ g) = xfers f ++ xfers g.
Proof. apply map_app. Qed.

Lemma sent_app f g : sent (f ++ g) = sent f ++ sent g.
Proof. apply map_app. Qed.

Lemma received_app f g : received (f ++ g) = received f ++ received g.
Proof. apply map_app. Qed.

Lemma sent_cons c x f : sent ((c, x) :: f) = c :: sent f.
Proof. reflexivity. Qed.

Lemma received_cons c x f : received ((c, x) :: f) = x :: received f.
Proof. reflexivity. Qed.

Lemma sleep_shape h :
  triple (sleep chip cfg u4 patience) h
         (framed false SPIFLASH_SLEEP (fun f _ => sent f = [SPIFLASH_SLEEP])).
Proof.
  apply (command_framed SPIFLASH_SLEEP false). intros h' x. tstep.
  exists [], tt. auto.
Qed.

Lemma wakeup_shape h :
  triple (wakeup chip cfg u4 patience) h
         (framed false SPIFLASH_WAKE (fun f _ => sent f = [SPIFLASH_WAKE])).
Proof.
  apply (command_framed SPIFLASH_WAKE false). intros h' x. tstep.
  exists [], tt. auto.
Qed.

Lemma chipErase_shape h :
  triple (chipErase chip cfg u4 patience) h
         (framed true SPIFLASH_CHIPERASE
                 (fun f _ => sent f = [SPIFLASH_CHIPERASE])).
Proof.
  apply (command_framed SPIFLASH_CHIPERASE true). intros h' x. tstep.
  exists [], tt. auto.
Qed.

Lemma blockErase4K_shape a h :
  triple (blockErase4K chip cfg u4 patience a) h
         (framed true SPIFLASH_BLOCKERASE_4K
                 (fun f _ => sent f = SPIFLASH_BLOCKERASE_4K :: addr_bytes a)).
Proof.
  apply (command_framed SPIFLASH_BLOCKERASE_4K true). intros h' x. tstep.
  apply send_addr_bytes. intros pl Hpl. tstep.
  exists pl, tt. repeat split. now rewrite sent_cons, Hpl.
Qed.

Lemma blockErase32K_shape a h :
  triple (blockErase32K chip cfg u4 patience a) h
         (framed true SPIFLASH_BLOCKERASE_32K
                 (fun f _ => sent f = SPIFLASH_BLOCKERASE_32K :: addr_bytes a)).
Proof.
  apply (command_framed SPIFLASH_BLOCKERASE_32K true). intros h' x. tstep.
  apply send_addr_bytes. intros pl Hpl. tstep.
  exists pl, tt. repeat split. now rewrite sent_cons, Hpl.
Qed.

Lemma writeByte_shape a byt h :
  triple (writeByte chip cfg u4 patience a byt) h
         (framed true SPIFLASH_BYTEPAGEPROGRAM
                 (fun f _ => sent f = SPIFLASH_BYTEPAGEPROGRAM
                                        :: addr_bytes a ++ [to_uint8 byt])).
Proof.
  apply (command_framed SPIFLASH_BYTEPAGEPROGRAM true). intros h' x. tstep.
  apply send_addr_bytes. intros pl Hpl. tsteps.
  eexists (pl ++ [(_, _)]), tt. repeat split.
  - now rewrite xfers_app, <- app_assoc.
  - now rewrite sent_cons, sent_app, Hpl.
Qed.

Lemma readByte_shape a h :
  triple (readByte chip cfg u4 patience a) h
         (framed false SPIFLASH_ARRAYREADLOWFREQ
                 (fun f r => sent f = SPIFLASH_ARRAYREADLOWFREQ
                                        :: addr_bytes a ++ [0] /\
                             drop 4 (received f) = [r])).
Proof.
  apply (command_framed SPIFLASH_ARRAYREADLOWFREQ false). intros h' x. tstep.
  apply send_addr_bytes. intros pl Hpl. tsteps.
  eexists (pl ++ [(_, _)]), _. repeat split.
  - now rewrite xfers_app, <- app_assoc.
  - now rewrite sent_cons, sent_app, Hpl.
  - assert (Hlen : length (received pl) = 3%nat).
    { unfold received. rewrite length_map, <- (length_map fst).
      fold (sent pl). now rewrite Hpl. }
    rewrite received_cons, received_app.
    destruct (received pl) as [|r1 [|r2 [|r3 [|]]]]; try discriminate.
    reflexivity.
Qed.

(** The exchanges that only clock bytes in: zero sent, [b] received. *)
Lemma readBytes_loop_shape k : forall i buf h,
  triple (readBytes_loop chip k i buf) h (fun r t =>
    exists data buf',
      length data = k /\ t = xfers (map (fun b => (0, b)) data) /\
      r = Some buf' /\
      (0 <= i -> (Z.to_nat i + k <= length buf)%nat ->
       buf' = take (Z.to_nat i) buf ++ data ++ drop (Z.to_nat i + k) buf)).
Proof.
  induction k as [|k IH]; intros i buf h; cbn [readBytes_loop].
  - tstep. exists [], buf. repeat split. intros _ _.
    rewrite Nat.add_0_r. cbn [app]. now rewrite take_drop.
  - tstep. tstep.
    eapply triple_mono; [apply IH|].
    intros r t (data & buf' & Hlen & -> & -> & Hbuf).
    match goal with Hb : 0 <= ?b < 256 |- _ =>
      exists (b :: data), buf'; repeat split
    end.
    + cbn. now rewrite Hlen.
    + intros Hi Hk.
      assert (Hn : Z.to_nat (i + 1) = S (Z.to_nat i)) by lia.
      rewrite Hbuf, Hn by (rewrite ?length_insert; lia).
      erewrite take_S_r by (apply list_lookup_insert_eq; lia).
      rewrite take_insert_ge by lia.
      rewrite drop_insert_lt by lia.
      rewrite <- app_assoc. cbn [app].
      replace (S (Z.to_nat i) + k)%nat with (Z.to_nat i + S k)%nat by lia.
      reflexivity.
Qed.

Lemma sent_zeros (data : list Z) :
  sent (map (fun b => (0, b)) data) = repeat 0 (length data).
Proof. induction data as [|b data IH]; cbn; [reflexivity|now f_equal]. Qed.

Lemma received_zeros (data : list Z) :
  received (map (fun b => (0, b)) data) = data.
Proof. induction data as [|b data IH]; cbn; [reflexivity|now f_equal]. Qed.

Lemma readBytes_shape a buf len h :
  triple (readBytes chip cfg u4 patience a buf len) h
         (framed false SPIFLASH_ARRAYREAD
            (fun f buf' =>
               sent f = SPIFLASH_ARRAYREAD
                          :: addr_bytes a ++ 0 :: repeat 0 (Z.to_nat len) /\
               length (drop 5 (received f)) = Z.to_nat len /\
               ((Z.to_nat len <= length buf)%nat ->
                buf' = drop 5 (received f) ++ drop (Z.to_nat len) buf))).
Proof.
  apply (command_framed SPIFLASH_ARRAYREAD false). intros h' x. tstep.
  apply send_addr_bytes. intros pl Hpl. tstep. tstep. tstep.
  eapply triple_mono; [apply readBytes_loop_shape|].
  intros r t (data & buf' & Hlen & -> & -> & Hbuf). tsteps.
  rename rx into d.
  exists (pl ++ (0, d) :: map (fun b => (0, b)) data), buf'.
  assert (Hrec : drop 5 (received ((to_uint8 SPIFLASH_ARRAYREAD, x)
                   :: pl ++ (0, d) :: map (fun b => (0, b)) data)) = data).
  { assert (H3 : length (received pl) = 3%nat).
    { unfold received. rewrite length_map, <- (length_map fst).
      fold (sent pl). now rewrite Hpl. }
    rewrite received_cons, received_app, received_cons, received_zeros.
    destruct (received pl) as [|r1 [|r2 [|r3 [|]]]]; try discriminate.
    reflexivity. }
  repeat split.
  - rewrite xfers_app. cbn [xfers map fst snd app].
    rewrite <- ?app_assoc. cbn [app]. rewrite ?app_nil_r. reflexivity.
  - rewrite sent_cons, sent_app, Hpl, sent_cons, sent_zeros, Hlen.
    reflexivity.
  - now rewrite Hrec.
  - intros Hk. rewrite Hrec. apply Hbuf; [lia|cbn; lia].
Qed.

Lemma readUniqueId_loop_shape k : forall i h,
  triple (readUniqueId_loop chip k i) h (fun r t =>
    exists data, length data = k /\ t = xfers (map (fun b => (0, b)) data) /\
                 r = Some tt).
Proof.
  induction k as [|k IH]; intros i h; cbn [readUniqueId_loop].
  - tstep. exists []. auto.
  - tstep. tstep. tstep. tstep.
    eapply triple_mono; [apply IH|].
    intros r t (data & Hlen & -> & ->).
    eexists (_ :: data). repeat split. cbn. now rewrite Hlen.
Qed.

Lemma readUniqueId_shape h :
  triple (readUniqueId chip cfg u4 patience) h
         (framed false SPIFLASH_MACREAD
            (fun f _ => sent f = SPIFLASH_MACREAD :: repeat 0 12)).
Proof.
  apply (command_framed SPIFLASH_MACREAD false). intros h' x. do 9 tstep.
  eapply triple_mono; [apply readUniqueId_loop_shape|].
  intros r t (data & Hlen & -> & ->). tsteps.
  exists ([(0, rx); (0, rx0); (0, rx1); (0, rx2)]
            ++ map (fun b => (0, b)) data), a.
  repeat split.
  rewrite sent_cons, sent_app, sent_zeros, Hlen. reflexivity.
Qed.

Lemma writeBytes_send_shape buf off k : forall i h,
  triple (writeBytes_send chip k i buf off) h (fun r t =>
    exists pl, r = Some tt /\ t = xfers pl /\
      sent pl = map (fun j => to_uint8 (nth (Z.to_nat (to_uint16 (off + j))) buf 0))
                    (seqZ i (Z.of_nat k))).
Proof.
  induction k as [|k IH]; intros i h; cbn [writeBytes_send].
  - tstep. exists []. auto.
  - tstep. tstep. eapply triple_mono; [apply IH|].
    intros r t (pl & -> & -> & Hpl).
    eexists ((_, rx) :: pl). repeat split.
    rewrite sent_cons, Hpl, (seqZ_cons i) by lia.
    cbn [map]. do 3 f_equal; lia.
Qed.

Lemma writeBytes_loop_shape buf k : forall addr len maxBytes offset h,
  triple (writeBytes_loop chip cfg u4 patience k addr buf len maxBytes offset) h
         (fun r t => exists fs,
              t = render fs /\
              loop_trace buf (burst_plan k addr len maxBytes offset) r fs).
Proof.
  induction k as [|k IH]; intros addr len maxBytes offset h;
    cbn [writeBytes_loop burst_plan]; destruct (0 <? len).
  - tstep. exists []. split; [reflexivity|constructor].
  - tstep. exists []. split; [reflexivity|constructor].
  - set (n := if len <=? maxBytes then len else maxBytes).
    tstep. eapply triple_mono; [apply command_shape|].
    intros [[]|] t H.
    + destruct H as (l & x & Hl & ->). tstep.
      apply send_addr_bytes. intros pl Hpl. tstep.
      eapply triple_mono; [apply writeBytes_send_shape|].
      intros r t (pl2 & -> & -> & Hpl2). tstep. tstep.
      eapply triple_mono; [apply IH|].
      intros r t (fs & -> & Hfs).
      set (f := (to_uint8 SPIFLASH_BYTEPAGEPROGRAM, x) :: pl ++ pl2).
      exists (l ++ [f] ++ fs). split.
      * rewrite !render_app, render_one. unfold f.
        rewrite <- frame_events_open, xfers_app.
        rewrite <- ?app_assoc. reflexivity.
      * apply lt_burst; auto. unfold f.
        rewrite sent_cons, sent_app, Hpl, Hpl2. unfold burst_bytes.
        do 3 f_equal. unfold seqZ. now rewrite Nat2Z.id.
    + destruct H as (l & Hl & ->). exists l. split; [reflexivity|].
      now apply lt_stall.
  - tstep. exists []. split; [reflexivity|constructor].
Qed.

Lemma writeBytes_shape addr buf len h :
  triple (writeBytes chip cfg u4 patience addr buf len) h
         (fun r t => exists fs,
              t = render fs /\
              loop_trace buf (burst_plan (Z.to_nat len) addr len
                                         (first_maxBytes addr) 0) r fs).
Proof. apply writeBytes_loop_shape. Qed.

Lemma readStatus_shape h :
  triple (readStatus chip cfg) h (fun r t =>
    exists x st, r = Some st /\ t = render [poll_frame x st]).
Proof.
  apply readStatus_poll. intros x st. exists x, st.
  now rewrite render_one.
Qed.

Lemma busy_shape h :
  triple (busy chip cfg) h (fun r t =>
    exists x st, r = Some (negb (Z.land st 1 =? 0)) /\
                 t = render [poll_frame x st]).
Proof.
  apply busy_poll. intros x st. exists x, st. now rewrite render_one.
Qed.

Lemma pack_word m d :
  0 <= m < 256 -> 0 <= d < 256 ->
  to_uint16 (Z.lor (to_uint16 (Z.shiftl m 8)) d) = Z.lor (Z.shiftl m 8) d.
Proof.
  intros Hm Hd.
  assert (Hs : to_uint16 (Z.shiftl m 8) = Z.shiftl m 8).
  { unfold to_uint16. rewrite Z.shiftl_mul_pow2 by lia.
    apply Z.mod_small. lia. }
  rewrite Hs. unfold to_uint16. change 65536 with (2 ^ 16).
  rewrite <- !Z.land_ones by lia. rewrite Z.land_lor_distr_l.
  rewrite !Z.land_ones by lia. rewrite Z.shiftl_mul_pow2 by lia.
  rewrite !Z.mod_small by lia. reflexivity.
Qed.

Lemma readDeviceId_shape h :
  triple (readDeviceId chip cfg u4 patience) h (fun r t =>
    exists fs, t = render fs /\
      match r with
      | Some id => id_read u4 fs id
      | None => u4 = true /\ stalled false fs
      end).
Proof.
  unfold readDeviceId, id_read. tstep.
  generalize (eq_refl u4). generalize u4 at 1 3 5 7. intros [|] Hu.
  - eapply triple_mono; [apply command_shape|].
    intros [[]|] t H.
    + destruct H as (l & x & Hl & ->). tsteps.
      exists (l ++ [id_frame x rx rx0]). split.
      * rewrite render_app, render_one. unfold id_frame.
        rewrite <- frame_events_open. rewrite <- ?app_assoc. reflexivity.
      * exists l, x, rx, rx0. repeat split; auto; try lia.
        now apply pack_word.
    + destruct H as (l & Hl & ->). exists l. auto.
  - tsteps. exists [id_frame rx rx0 rx1]. split.
    + now rewrite render_one.
    + exists [], rx, rx0, rx1. repeat split; auto; try lia.
      now apply pack_word.
Qed.

Lemma unprotect_shape h :
  triple (command chip cfg u4 patience SPIFLASH_STATUSWRITE true ;;;
          SPI_transfer chip 0 ;;; unselect ;;; ret true) h
         (fun r t => exists fs, t = render fs /\ unprotect_outcome r fs).
Proof.
  apply (command_framed SPIFLASH_STATUSWRITE true). intros h' x. tsteps.
  exists [(0, rx)], true. repeat split.
Qed.

Lemma initialize_shape h :
  triple (initialize chip cfg u4 patience self) h (fun r t =>
    exists fs, t = Unselect :: render fs /\
               init_trace u4 (_jedecID self) r fs).
Proof.
  unfold initialize. do 7 tstep.
  eapply triple_mono; [apply wakeup_shape|].
  intros [[]|] t (wk & -> & Hwk).
  2:{ exists wk. split; [reflexivity|]. now apply it_wake_stall. }
  tstep. destruct (Z.eqb_spec (_jedecID self) 0) as [E0|E0].
  - tstep. eapply triple_mono; [apply unprotect_shape|].
    intros r t (sw & -> & Hsw). exists (wk ++ sw). split.
    + rewrite render_app. cbn [app]. rewrite ?app_nil_r. reflexivity.
    + now apply it_unchecked.
  - tstep. eapply triple_mono; [apply readDeviceId_shape|].
    intros [id|] t (idp & -> & Hid).
    2:{ destruct Hid as [Hu Hl]. exists (wk ++ idp). split.
        - rewrite render_app. reflexivity.
        - now apply it_id_stall. }
    tstep. rewrite app_nil_r.
    destruct (Z.eqb_spec id (_jedecID self)) as [E|E].
    + eapply triple_mono; [apply unprotect_shape|].
      intros r t (sw & -> & Hsw). exists (wk ++ idp ++ sw). split.
      * rewrite !render_app. cbn [app]. rewrite <- ?app_assoc. reflexivity.
      * subst id. now apply it_match.
    + tstep. exists (wk ++ idp). split.
      * rewrite render_app. cbn [app]. rewrite ?app_nil_r. reflexivity.
      * now apply (it_mismatch _ _ _ _ id).
Qed.

End Shapes.

(** ** Returning

    With a chip that answers within the patience, every operation returns. *)

Lemma returns_ret {A} (a : A) : returns (ret a).
Proof. intros s. exists a. reflexivity. Qed.

Lemma returns_modify f : returns (modify f).
Proof. intros s. exists tt. reflexivity. Qed.

Lemma returns_gets {A} (f : mcu -> A) : returns (gets f).
Proof. intros s. eexists. reflexivity. Qed.

Lemma returns_bind {A B} (m : M A) (f : A -> M B) :
  returns m -> (forall a, returns (f a)) -> returns (bind m f).
Proof.
  intros Hm Hf s. destruct (Hm s) as [a Ha]. unfold result, bind in *.
  destruct (m s) as [[a'|] s']; cbn in Ha; [|discriminate]. apply Hf.
Qed.

(** Once the patience suffices, more of it changes nothing. *)
Lemma busy_wait_more chip cfg (p k : nat) : forall s,
  result (busy_wait chip cfg p) s = Some tt ->
  busy_wait chip cfg (p + k) s = busy_wait chip cfg p s.
Proof.
  induction p as [|p IH]; intros s H; [discriminate|].
  cbn [busy_wait Nat.add] in *. unfold result, bind in *.
  destruct (busy chip cfg s) as [[[|]|] s1]; cbn in *; auto.
Qed.

Lemma responsive_more chip cfg (p k : nat) :
  responsive chip cfg p -> responsive chip cfg (p + k).
Proof.
  intros H s. unfold result. rewrite busy_wait_more by apply H. apply H.
Qed.

Ltac rstep :=
  lazymatch goal with
  | |- returns (bind _ _) => apply returns_bind; [|intros ?]
  | |- returns (ret _) => apply returns_ret
  | |- returns (modify _) => apply returns_modify
  | |- returns (gets _) => apply returns_gets
  end.

Section Returns.

Variable chip : list event -> Z -> Z.
Variable cfg : Z * Z -> Z * Z.
Variable u4 : bool.
Variable patience : nat.
Variable self : SPIFlash.
Hypothesis Hresp : responsive chip cfg patience.

Lemma returns_transfer v : returns (SPI_transfer chip v).
Proof. intros s. eexists. reflexivity. Qed.

Lemma returns_select : returns (select cfg).
Proof. intros s. exists tt. reflexivity. Qed.

Lemma returns_unselect : returns unselect.
Proof. intros s. exists tt. reflexivity. Qed.

Lemma returns_readStatus : returns (readStatus chip cfg).
Proof. intros s. eexists. reflexivity. Qed.

Lemma returns_busy : returns (busy chip cfg).
Proof. intros s. eexists. reflexivity. Qed.

Lemma returns_busy_wait : returns (busy_wait chip cfg patience).
Proof. intros s. exists tt. apply Hresp. Qed.

Lemma returns_command_portB : returns (command_portB u4).
Proof. unfold command_portB. destruct u4; rstep. Qed.

Lemma returns_command_rec depth c :
  returns (command_rec chip cfg u4 patience depth c false).
Proof.
  destruct depth; cbn [command_rec];
    (rstep; [apply returns_command_portB|]);
    (rstep; [rstep|]);
    (rstep; [apply returns_busy_wait|]);
    (rstep; [apply returns_select|]);
    (rstep; [apply returns_transfer|]); rstep.
Qed.

Lemma returns_command c w : returns (command chip cfg u4 patience c w).
Proof.
  unfold command. destruct w; [|apply returns_command_rec].
  rewrite command_rec_S.
  rstep; [apply returns_command_portB|].
  rstep; [rstep; [apply returns_command_rec|apply returns_unselect]|].
  rstep; [apply returns_busy_wait|].
  rstep; [apply returns_select|].
  rstep; [apply returns_transfer|]. rstep.
Qed.

Lemma returns_send_addr a : returns (send_addr chip a).
Proof.
  unfold send_addr. repeat (rstep; [apply returns_transfer|]). rstep.
Qed.

Ltac rauto :=
  repeat lazymatch goal with
    | |- returns (command _ _ _ _ _ _) => apply returns_command
    | |- returns (SPI_transfer _ _) => apply returns_transfer
    | |- returns (send_addr _ _) => apply returns_send_addr
    | |- returns (select _) => apply returns_select
    | |- returns unselect => apply returns_unselect
    | |- returns (bind _ _) => apply returns_bind; [|intros ?]
    | |- returns (ret _) => apply returns_ret
    | |- returns (modify _) => apply returns_modify
    | |- returns (gets _) => apply returns_gets
    end.

Lemma returns_sleep : returns (sleep chip cfg u4 patience).
Proof. unfold sleep. rauto. Qed.

Lemma returns_wakeup : returns (wakeup chip cfg u4 patience).
Proof. unfold wakeup. rauto. Qed.

Lemma returns_chipErase : returns (chipErase chip cfg u4 patience).
Proof. unfold chipErase. rauto. Qed.

Lemma returns_blockErase4K a : returns (blockErase4K chip cfg u4 patience a).
Proof. unfold blockErase4K. rauto. Qed.

Lemma returns_blockErase32K a : returns (blockErase32K chip cfg u4 patience a).
Proof. unfold blockErase32K. rauto. Qed.

Lemma returns_writeByte a b : returns (writeByte chip cfg u4 patience a b).
Proof. unfold writeByte. rauto. Qed.

Lemma returns_readByte a : returns (readByte chip cfg u4 patience a).
Proof. unfold readByte. rauto. Qed.

Lemma returns_readDeviceId : returns (readDeviceId chip cfg u4 patience).
Proof.
  unfold readDeviceId. rstep; [|rauto].
  generalize u4 at 1. intros []; rauto.
Qed.

Lemma returns_readBytes_loop k : forall i buf,
  returns (readBytes_loop chip k i buf).
Proof. induction k as [|k IH]; intros i buf; cbn [readBytes_loop]; rauto. apply IH. Qed.

Lemma returns_readBytes a buf len :
  returns (readBytes chip cfg u4 patience a buf len).
Proof.
  unfold readBytes. rauto. apply returns_readBytes_loop.
Qed.

Lemma returns_readUniqueId_loop k : forall i,
  returns (readUniqueId_loop chip k i).
Proof. induction k as [|k IH]; intros i; cbn [readUniqueId_loop]; rauto. apply IH. Qed.

Lemma returns_readUniqueId : returns (readUniqueId chip cfg u4 patience).
Proof.
  unfold readUniqueId. rauto. apply returns_readUniqueId_loop.
Qed.

Lemma returns_initialize : returns (initialize chip cfg u4 patience self).
Proof.
  unfold initialize. rauto.
  - apply returns_wakeup.
  - destruct (_jedecID self =? 0); rauto. apply returns_readDeviceId.
  - destruct a3; rauto.
Qed.

Lemma returns_writeBytes_send k : forall i buf off,
  returns (writeBytes_send chip k i buf off).
Proof.
  induction k as [|k IH]; intros i buf off; cbn [writeBytes_send]; rauto.
  apply IH.
Qed.

(** The rounds of the [while] loop suffice when every round can take a
    byte. *)
Lemma returns_writeBytes_loop buf k : forall addr len maxBytes offset,
  1 <= maxBytes -> len <= Z.of_nat k ->
  returns (writeBytes_loop chip cfg u4 patience k addr buf len maxBytes offset).
Proof.
  induction k as [|k IH]; intros addr len maxBytes offset Hmb Hlen;
    cbn [writeBytes_loop]; destruct (Z.ltb_spec 0 len) as [Hpos|Hpos].
  - lia.
  - rstep.
  - rauto; [apply returns_writeBytes_send|].
    apply IH; [lia|].
    unfold to_uint16.
    destruct (Z.leb_spec len maxBytes).
    + rewrite Z.sub_diag, Z.mod_0_l by lia. lia.
    + pose proof (Z.mod_le (len - maxBytes) 65536). lia.
  - rstep.
Qed.

Lemma first_maxBytes_range addr : 1 <= first_maxBytes addr <= 511.
Proof.
  unfold first_maxBytes, to_uint16.
  assert (-256 < Z.rem addr 256 < 256).
  { destruct (Z_le_gt_dec 0 addr).
    - pose proof (Z.rem_bound_pos addr 256). lia.
    - pose proof (Z.rem_bound_pos_neg addr 256). lia. }
  rewrite Z.mod_small; lia.
Qed.

Lemma returns_writeBytes addr buf len :
  returns (writeBytes chip cfg u4 patience addr buf len).
Proof.
  unfold writeBytes. apply returns_writeBytes_loop.
  - apply first_maxBytes_range.
  - lia.
Qed.

Lemma returns_perform c : returns (perform chip cfg u4 patience self c).
Proof.
  destruct c; cbn [perform]; try rstep; try rstep;
    auto using returns_initialize, returns_readDeviceId, returns_readUniqueId,
      returns_readByte, returns_readBytes, returns_readStatus, returns_busy,
      returns_writeByte, returns_writeBytes, returns_chipErase,
      returns_blockErase4K, returns_blockErase32K, returns_sleep,
      returns_wakeup.
Qed.

End Returns.

(** ** The sequencing rules on the shapes *)

Lemma split_at {A} (fs1 fs2 pre post : list A) (f : A) :
  fs1 ++ fs2 = pre ++ f :: post ->
  (exists post1, fs1 = pre ++ f :: post1 /\ post = post1 ++ fs2) \/
  (exists pre2, pre = fs1 ++ pre2 /\ fs2 = pre2 ++ f :: post).
Proof.
  revert pre. induction fs1 as [|a fs1 IH]; intros pre E; cbn in E.
  - right. exists pre. auto.
  - destruct pre as [|b pre]; cbn in E; injection E as E0 E; subst a.
    + left. exists fs1. auto.
    + destruct (IH _ E) as [(post1 & -> & ->)|(pre2 & -> & ->)].
      * left. exists post1. auto.
      * right. exists pre2. auto.
Qed.

Lemma enabled_app ctx pre : enabled pre -> enabled (ctx ++ pre).
Proof.
  intros (pre' & x & p & -> & Hp). exists (ctx ++ pre'), x, p.
  now rewrite <- app_assoc.
Qed.

Lemma polled_app ctx pre : polled pre -> polled (ctx ++ pre).
Proof.
  intros (pre' & f0 & mid & -> & Hf & Hmid). exists (ctx ++ pre'), f0, mid.
  now rewrite <- app_assoc.
Qed.

Lemma we_guarded_nil : we_guarded [].
Proof. intros [|g pre] f post c E; discriminate. Qed.

Lemma we_guarded_app fs1 fs2 :
  we_guarded fs1 -> we_guarded fs2 -> we_guarded (fs1 ++ fs2).
Proof.
  intros H1 H2 pre f post c E Hc Hm.
  destruct (split_at _ _ _ _ _ E) as [(post1 & E1 & _)|(pre2 & -> & E2)].
  - exact (H1 _ _ _ _ E1 Hc Hm).
  - apply enabled_app. exact (H2 _ _ _ _ E2 Hc Hm).
Qed.

Lemma we_guarded_harmless fs :
  Forall (fun f => forall c, opcode f = Some c -> mutating c = false) fs ->
  we_guarded fs.
Proof.
  intros H pre f post c -> Hc Hm.
  apply Forall_app in H as [_ H]. apply Forall_cons in H as [H _].
  rewrite (H c Hc) in Hm. discriminate.
Qed.

Lemma poll_harmless f c : is_poll f -> opcode f = Some c -> mutating c = false.
Proof. intros (x & st & ->) [= <-]. reflexivity. Qed.

Lemma busy_poll_is_poll f : is_busy_poll f -> is_poll f.
Proof. intros (x & st & -> & _). now exists x, st. Qed.

Lemma ready_poll_is_poll f : is_ready_poll f -> is_poll f.
Proof. intros (x & st & -> & _). now exists x, st. Qed.

Lemma ready_polls_polls p : ready_polls p -> Forall is_poll p.
Proof.
  intros (p' & f & -> & Hp' & Hf). apply Forall_app. split.
  - eapply Forall_impl; [exact Hp'|]. apply busy_poll_is_poll.
  - repeat constructor. now apply ready_poll_is_poll.
Qed.

Lemma busy_polls_polls p : Forall is_busy_poll p -> Forall is_poll p.
Proof. intros H. eapply Forall_impl; [exact H|]. apply busy_poll_is_poll. Qed.

Lemma we_guarded_polls p : Forall is_poll p -> we_guarded p.
Proof.
  intros H. apply we_guarded_harmless. eapply Forall_impl; [exact H|].
  intros f Hf c. now apply poll_harmless.
Qed.

Lemma we_guarded_one f :
  (forall c, opcode f = Some c -> mutating c = false) -> we_guarded [f].
Proof. intros H. apply we_guarded_harmless. now repeat constructor. Qed.

Lemma we_guarded_lead w l : lead w l -> we_guarded l.
Proof.
  destruct w; cbn.
  - intros (p1 & x & p2 & -> & H1 & H2).
    apply we_guarded_app; [|apply (we_guarded_app [we_frame x] p2)];
      auto using we_guarded_polls, ready_polls_polls.
    apply we_guarded_one. now intros c [= <-].
  - auto using we_guarded_polls, ready_polls_polls.
Qed.

Lemma we_guarded_stalled w l : stalled w l -> we_guarded l.
Proof.
  intros [H|(_ & p1 & x & p2 & -> & H1 & H2)].
  - auto using we_guarded_polls, busy_polls_polls.
  - apply we_guarded_app; [|apply (we_guarded_app [we_frame x] p2)];
      auto using we_guarded_polls, ready_polls_polls, busy_polls_polls.
    apply we_guarded_one. now intros c [= <-].
Qed.

(** After the lead of a write, any transaction is enabled. *)
Lemma we_guarded_write l f : lead true l -> we_guarded (l ++ [f]).
Proof.
  intros Hl pre g post c E Hc Hm.
  destruct (split_at _ _ _ _ _ E) as [(post1 & E1 & _)|(pre2 & -> & E2)].
  - exact (we_guarded_lead true l Hl _ _ _ _ E1 Hc Hm).
  - destruct pre2 as [|? [|? ?]]; try discriminate.
    rewrite app_nil_r. destruct Hl as (p1 & x & p2 & -> & H1 & H2).
    now exists p1, x, p2.
Qed.

(** After the lead of a command that is no write, a harmless transaction. *)
Lemma we_guarded_read l f :
  lead false l -> (forall c, opcode f = Some c -> mutating c = false) ->
  we_guarded (l ++ [f]).
Proof.
  intros Hl Hf. apply we_guarded_app.
  - now apply (we_guarded_lead false).
  - now apply we_guarded_one.
Qed.

Lemma we_guarded_outcome {A} w c (P : frame -> A -> Prop) r fs :
  (w = true \/ mutating c = false) ->
  outcome w c P r fs -> we_guarded fs.
Proof.
  intros Hw H. destruct r as [a|]; cbn in H.
  - destruct H as (l & f & -> & Hl & Hc & _). destruct w.
    + now apply we_guarded_write.
    + destruct Hw as [|Hw]; [discriminate|].
      apply we_guarded_read; auto. intros c' E. congruence.
  - now apply (we_guarded_stalled w).
Qed.

Lemma app_snoc {A} (l k : list A) (x : A) : l ++ x :: k = (l ++ [x]) ++ k.
Proof. now rewrite <- app_assoc. Qed.

Lemma checked_nil ctx : busy_checked_after ctx [].
Proof. intros [|g pre] f post c E; discriminate. Qed.

Lemma checked_app ctx fs1 fs2 :
  busy_checked_after ctx fs1 -> busy_checked_after (ctx ++ fs1) fs2 ->
  busy_checked_after ctx (fs1 ++ fs2).
Proof.
  intros H1 H2 pre f post c E Hc Hn.
  destruct (split_at _ _ _ _ _ E) as [(post1 & E1 & _)|(pre2 & -> & E2)].
  - exact (H1 _ _ _ _ E1 Hc Hn).
  - rewrite app_assoc. exact (H2 _ _ _ _ E2 Hc Hn).
Qed.

Lemma checked_ctx ctx' ctx fs :
  busy_checked_after ctx fs -> busy_checked_after (ctx' ++ ctx) fs.
Proof.
  intros H pre f post c E Hc Hn. rewrite <- app_assoc.
  apply polled_app. exact (H _ _ _ _ E Hc Hn).
Qed.

Lemma checked_polls ctx p : Forall is_poll p -> busy_checked_after ctx p.
Proof.
  intros H pre f post c -> Hc Hn.
  apply Forall_app in H as [_ H]. apply Forall_cons in H as [(x & st & ->) _].
  injection Hc as <-. now destruct Hn.
Qed.

Lemma checked_one ctx f : polled ctx -> busy_checked_after ctx [f].
Proof.
  intros H pre g post c E Hc Hn.
  destruct pre as [|? [|? ?]]; try discriminate. now rewrite app_nil_r.
Qed.

Lemma polled_ready ctx p : ready_polls p -> polled (ctx ++ p).
Proof.
  intros (p' & f & -> & _ & Hf). exists (ctx ++ p'), f, [].
  repeat split; auto. now rewrite app_assoc.
Qed.

Lemma polled_snoc pre g :
  polled pre -> opcode g <> Some SPIFLASH_STATUSREAD -> polled (pre ++ [g]).
Proof.
  intros (pre' & f0 & mid & -> & Hf & Hmid) Hg.
  exists pre', f0, (mid ++ [g]). repeat split; auto.
  - now rewrite <- !app_assoc.
  - apply Forall_app. split; auto.
Qed.

Lemma checked_wait ctx p g : ready_polls p -> busy_checked_after ctx (p ++ [g]).
Proof.
  intros Hp. apply checked_app.
  - now apply checked_polls, ready_polls_polls.
  - now apply checked_one, polled_ready.
Qed.

Lemma checked_lead w l ctx :
  lead w l -> busy_checked_after ctx l /\ polled (ctx ++ l).
Proof.
  destruct w; cbn.
  - intros (p1 & x & p2 & -> & H1 & H2). cbn [app]. split.
    + rewrite app_snoc. apply checked_app.
      * now apply checked_wait.
      * now apply checked_polls, ready_polls_polls.
    + rewrite app_snoc, app_assoc. now apply polled_ready.
  - intros Hp. split.
    + now apply checked_polls, ready_polls_polls.
    + now apply polled_ready.
Qed.

Lemma checked_block w l f ctx : lead w l -> busy_checked_after ctx (l ++ [f]).
Proof.
  intros Hl. destruct (checked_lead w l ctx Hl) as [H1 H2].
  apply checked_app; [exact H1|]. now apply checked_one.
Qed.

Lemma checked_stalled w l ctx : stalled w l -> busy_checked_after ctx l.
Proof.
  intros [H|(_ & p1 & x & p2 & -> & H1 & H2)].
  - now apply checked_polls, busy_polls_polls.
  - cbn [app]. rewrite app_snoc. apply checked_app.
    + now apply checked_wait.
    + now apply checked_polls, busy_polls_polls.
Qed.

Lemma checked_outcome {A} w c (P : frame -> A -> Prop) r fs ctx :
  outcome w c P r fs -> busy_checked_after ctx fs.
Proof.
  destruct r as [a|]; cbn.
  - intros (l & f & -> & Hl & _). now apply (checked_block w).
  - apply checked_stalled.
Qed.

(** After a finished command that is no status read, the chip has been
    polled. *)
Lemma polled_outcome {A} w c (P : frame -> A -> Prop) a fs ctx :
  c <> SPIFLASH_STATUSREAD ->
  outcome w c P (Some a) fs -> polled (ctx ++ fs).
Proof.
  intros Hc (l & f & -> & Hl & Hf & _). rewrite app_assoc.
  apply polled_snoc.
  - now apply (checked_lead w).
  - congruence.
Qed.

Lemma we_guarded_loop buf pl r fs : loop_trace buf pl r fs -> we_guarded fs.
Proof.
  induction 1 as [| |b pl l Hl|a off n pl l f r fs Hl Hf _ IH].
  - apply we_guarded_nil.
  - apply we_guarded_nil.
  - now apply (we_guarded_stalled true).
  - cbn [app]. rewrite app_snoc. apply we_guarded_app; [|exact IH].
    now apply we_guarded_write.
Qed.

Lemma checked_loop buf pl r fs :
  loop_trace buf pl r fs -> forall ctx, busy_checked_after ctx fs.
Proof.
  induction 1 as [| |b pl l Hl|a off n pl l f r fs Hl Hf _ IH]; intros ctx.
  - apply checked_nil.
  - apply checked_nil.
  - now apply (checked_stalled true).
  - cbn [app]. rewrite app_snoc. apply checked_app; [|apply IH].
    now apply (checked_block true).
Qed.

Lemma we_guarded_id_read u4 fs id : id_read u4 fs id -> we_guarded fs.
Proof.
  intros (l & x & m & d & -> & Hl & _). apply we_guarded_app.
  - destruct u4; [|subst l; apply we_guarded_nil].
    now apply we_guarded_polls, ready_polls_polls.
  - apply we_guarded_one. now intros c [= <-].
Qed.

(** The identifier read is checked when the chip was polled before it, as
    it is after the wake-up, or when the build polls by itself. *)
Lemma checked_id_read u4 fs id ctx :
  (u4 = true \/ polled ctx) -> id_read u4 fs id -> busy_checked_after ctx fs.
Proof.
  intros Hctx (l & x & m & d & -> & Hl & _). destruct u4.
  - now apply checked_wait.
  - destruct Hctx as [|Hctx]; [discriminate|]. subst l. cbn [app].
    now apply checked_one.
Qed.

Lemma we_guarded_init u4 jedec r fs : init_trace u4 jedec r fs -> we_guarded fs.
Proof.
  assert (Hwake : forall r fs, wake_outcome r fs -> we_guarded fs).
  { intros r' fs'. apply we_guarded_outcome. now right. }
  assert (Hunp : forall r fs, unprotect_outcome r fs -> we_guarded fs).
  { intros r' fs'. apply we_guarded_outcome. now left. }
  destruct 1; repeat apply we_guarded_app;
    eauto using we_guarded_stalled, we_guarded_id_read.
Qed.

Lemma checked_wake r fs ctx : wake_outcome r fs -> busy_checked_after ctx fs.
Proof. apply checked_outcome. Qed.

Lemma checked_unprotect r fs ctx :
  unprotect_outcome r fs -> busy_checked_after ctx fs.
Proof. apply checked_outcome. Qed.

Lemma checked_init u4 jedec r fs : init_trace u4 jedec r fs -> busy_checked fs.
Proof.
  assert (Hwk : forall wk ctx, wake_outcome (Some tt) wk -> polled (ctx ++ wk)).
  { intros wk ctx. now apply polled_outcome. }
  unfold busy_checked.
  destruct 1 as [l Hl|wk l Hwk' _ _ Hl|wk idp id Hwk' _ Hid _
                |wk idp r sw Hwk' _ Hid Hsw|wk r sw Hwk' _ Hsw].
  - now apply (checked_wake None).
  - apply checked_app.
    + now apply (checked_wake (Some tt)).
    + now apply (checked_stalled false).
  - apply checked_app.
    + now apply (checked_wake (Some tt)).
    + apply (checked_id_read u4 _ id); auto.
  - apply checked_app; [|apply checked_app].
    + now apply (checked_wake (Some tt)).
    + apply (checked_id_read u4 _ jedec); auto.
    + now apply (checked_unprotect r).
  - apply checked_app.
    + now apply (checked_wake (Some tt)).
    + now apply (checked_unprotect r).
Qed.

(** ** Every call, as transactions *)

Lemma triple_discard {A} (m : M A) h (R : list event -> Prop) :
  triple m h (fun _ t => R t) ->
  triple (_ <- m ;; ret tt) h (fun _ t => R t).
Proof.
  intros H. tstep. eapply triple_mono; [exact H|].
  intros [a|] t HR; [|exact HR]. tstep. now rewrite app_nil_r.
Qed.

Section Calls.

Variable chip : list event -> Z -> Z.
Variable cfg : Z * Z -> Z * Z.
Variable u4 : bool.
Variable patience : nat.
Variable self : SPIFlash.

Ltac by_outcome :=
  intros ? ? (fs & -> & H); exists fs;
  split; [reflexivity|split];
  [ eapply we_guarded_outcome; [|exact H]; auto
  | intros _; eapply checked_outcome; exact H ].

Lemma perform_frames c h :
  triple (perform chip cfg u4 patience self c) h (fun _ t =>
    exists fs, t = preamble c ++ render fs /\
               we_guarded fs /\
               ((c = ReadDeviceId -> u4 = true) -> busy_checked fs)).
Proof.
  destruct c; cbn [perform preamble].
  - apply triple_discard. eapply triple_mono; [apply initialize_shape|].
    intros r t (fs & -> & H). exists fs. repeat split.
    + eapply we_guarded_init; eauto.
    + intros _. eapply checked_init; eauto.
  - apply triple_discard. eapply triple_mono; [apply readDeviceId_shape|].
    intros r t (fs & -> & H). exists fs. repeat split.
    + destruct r as [id|].
      * eapply we_guarded_id_read; eauto.
      * apply (we_guarded_stalled false), H.
    + intros Hu. specialize (Hu eq_refl). destruct r as [id|].
      * eapply checked_id_read; eauto.
      * apply (checked_stalled false), H.
  - apply triple_discard. eapply triple_mono; [apply readUniqueId_shape|].
    by_outcome.
  - apply triple_discard. eapply triple_mono; [apply readByte_shape|].
    by_outcome.
  - apply triple_discard. eapply triple_mono; [apply readBytes_shape|].
    by_outcome.
  - apply triple_discard. eapply triple_mono; [apply readStatus_shape|].
    intros r t (x & st & _ & ->). exists [poll_frame x st]. repeat split.
    + apply we_guarded_polls. repeat constructor. now exists x, st.
    + intros _. apply checked_polls. repeat constructor. now exists x, st.
  - apply triple_discard. eapply triple_mono; [apply busy_shape|].
    intros r t (x & st & _ & ->). exists [poll_frame x st]. repeat split.
    + apply we_guarded_polls. repeat constructor. now exists x, st.
    + intros _. apply checked_polls. repeat constructor. now exists x, st.
  - eapply triple_mono; [apply writeByte_shape|]. by_outcome.
  - eapply triple_mono; [apply writeBytes_shape|].
    intros r t (fs & -> & H). exists fs. repeat split.
    + eapply we_guarded_loop; eauto.
    + intros _. eapply checked_loop; eauto.
  - eapply triple_mono; [apply chipErase_shape|]. by_outcome.
  - eapply triple_mono; [apply blockErase4K_shape|]. by_outcome.
  - eapply triple_mono; [apply blockErase32K_shape|]. by_outcome.
  - eapply triple_mono; [apply sleep_shape|]. by_outcome.
  - eapply triple_mono; [apply wakeup_shape|]. by_outcome.
Qed.

End Calls.

(** ** The arithmetic of the page split *)

Lemma burst_bytes_slice buf : forall (k : nat) (off : Z),
  0 <= off -> off + Z.of_nat k <= Z.of_nat (length buf) ->
  Z.of_nat (length buf) < 65536 ->
  burst_bytes buf off (Z.of_nat k) =
  map to_uint8 (take k (drop (Z.to_nat off) buf)).
Proof.
  unfold burst_bytes.
  induction k as [|k IH]; intros off Hoff Hlen Hbuf.
  - reflexivity.
  - rewrite seqZ_cons by lia.
    replace (Z.pred (Z.of_nat (S k))) with (Z.of_nat k) by lia.
    assert (Hlt : (Z.to_nat off < length buf)%nat) by lia.
    destruct (lookup_lt_is_Some_2 buf _ Hlt) as [x Hx].
    rewrite (drop_S _ _ _ Hx). cbn [take map]. f_equal.
    + rewrite Z.add_0_r. unfold to_uint16. rewrite Z.mod_small by lia.
      now rewrite nth_lookup, Hx.
    + replace (Z.succ 0) with (1 + 0) by lia.
      rewrite <- (fmap_add_seqZ 1 0 (Z.of_nat k)).
      change (map ?f (?g <$> ?l)) with (map f (map g l)). rewrite map_map.
      specialize (IH (off + 1) ltac:(lia) ltac:(lia) Hbuf).
      replace (Z.to_nat (off + 1)) with (S (Z.to_nat off)) in IH by lia.
      rewrite <- IH. apply map_ext. intros i. do 4 f_equal. lia.
Qed.

Lemma burst_plan_zero k addr maxBytes offset :
  burst_plan k addr 0 maxBytes offset = [].
Proof. destruct k; reflexivity. Qed.

Lemma first_maxBytes_nonneg addr :
  0 <= addr -> first_maxBytes addr = 256 - addr mod 256.
Proof.
  intros H. unfold first_maxBytes, to_uint16.
  rewrite Z.rem_mod_nonneg by lia.
  pose proof (Z.mod_pos_bound addr 256).
  rewrite (Z.mod_small (256 - addr mod 256)); lia.
Qed.

Lemma first_maxBytes_neg addr :
  addr < 0 -> Z.rem addr 256 <> 0 ->
  first_maxBytes addr = 256 + (- addr) mod 256 /\ 0 < (- addr) mod 256 < 256.
Proof.
  intros H Hr. unfold first_maxBytes, to_uint16.
  replace addr with (- - addr) in Hr |- * at 1 by lia.
  rewrite Z.rem_opp_l in Hr |- * by lia.
  rewrite Z.rem_mod_nonneg in Hr |- * by lia.
  pose proof (Z.mod_pos_bound (- addr) 256).
  rewrite (Z.mod_small (256 - - ((- addr) mod 256))); lia.
Qed.

Lemma to_long_id z : is_long z -> to_long z = z.
Proof. unfold is_long, to_long. intros H. rewrite Z.mod_small; lia. Qed.

Lemma to_uint16_id z : is_uint16 z -> to_uint16 z = z.
Proof. unfold is_uint16, to_uint16. intros H. now rewrite Z.mod_small. Qed.

Lemma same_page a n :
  1 <= n <= 256 - a mod 256 -> a / 256 = (a + n - 1) / 256.
Proof.
  intros H. pose proof (Z.mod_pos_bound a 256 ltac:(lia)).
  apply (Z.div_unique _ _ _ (a mod 256 + n - 1)); [lia|].
  pose proof (Z.div_mod a 256 ltac:(lia)). lia.
Qed.

Lemma plan_page_split buf k : forall addr len off,
  0 <= len <= Z.of_nat k ->
  0 <= addr -> addr + len < 2147483648 ->
  0 <= off -> off + len <= Z.of_nat (length buf) ->
  Z.of_nat (length buf) < 65536 ->
  let pl := burst_plan k addr len (256 - addr mod 256) off in
  let bs := plan_bursts buf pl in
  tiles addr bs (addr + len) /\
  Forall in_one_page bs /\
  sizes_ok addr bs /\
  Forall (fun b : burst => Z.of_nat (length (snd b)) <= 256) bs /\
  concat (map snd bs) = take (Z.to_nat len) (drop (Z.to_nat off) buf) /\
  Forall (fun e => burst_bytes buf (snd (fst e)) (snd e) =
                   map to_uint8 (take (Z.to_nat (snd e))
                                      (drop (Z.to_nat (snd (fst e))) buf))) pl.
Proof.
  induction k as [|k IH]; intros addr len off Hlen Haddr Hmax Hoff Hbuf Hsz;
    cbn [burst_plan]; destruct (Z.ltb_spec 0 len) as [Hpos|Hpos]; try lia;
    try (replace len with 0 by lia; cbn; repeat split; auto; lia).
  cbv zeta.
  pose proof (Z.mod_pos_bound addr 256 ltac:(lia)) as Hm.
  set (mb := 256 - addr mod 256) in *.
  set (n := if len <=? mb then len else mb).
  assert (Hn : 1 <= n <= len /\ n <= mb /\ (n < len -> n = mb)).
  { unfold n. destruct (Z.leb_spec len mb); lia. }
  rewrite (to_long_id (addr + n)) by (unfold is_long; lia).
  rewrite (to_uint16_id (len - n)) by (unfold is_uint16; lia).
  rewrite (to_uint16_id (off + n)) by (unfold is_uint16; lia).
  assert (Hrest : burst_plan k (addr + n) (len - n) 256 (off + n) =
                  burst_plan k (addr + n) (len - n)
                             (256 - (addr + n) mod 256) (off + n)).
  { destruct (Z.eq_dec (len - n) 0) as [E|E].
    - rewrite E. now rewrite !burst_plan_zero.
    - assert (Hmb : n = mb) by lia.
      assert (E0 : (addr + n) mod 256 = 0).
      { rewrite Hmb. unfold mb.
        replace (addr + (256 - addr mod 256))
          with (addr - addr mod 256 + 1 * 256) by lia.
        rewrite Z.mod_add by lia.
        rewrite Zminus_mod_idemp_r, Z.sub_diag. reflexivity. }
      now rewrite E0. }
  rewrite Hrest.
  destruct (IH (addr + n) (len - n) (off + n)) as (Ht & Hp & Hs & Hall & Hc & Hw);
    try lia.
  set (pl' := burst_plan k (addr + n) (len - n)
                         (256 - (addr + n) mod 256) (off + n)) in *.
  cbn [plan_bursts map fst snd]. fold (plan_bursts buf pl').
  assert (Hl : Z.of_nat (length (take (Z.to_nat n) (drop (Z.to_nat off) buf))) = n).
  { rewrite length_take, length_drop. lia. }
  refine (conj _ (conj _ (conj _ (conj _ (conj _ _))))).
  - cbn [tiles fst snd]. rewrite Hl. repeat split.
    + intros E. rewrite E in Hl. cbn in Hl. lia.
    + replace (addr + len) with (addr + n + (len - n)) by lia. exact Ht.
  - constructor; [|exact Hp]. unfold in_one_page. cbn [fst snd].
    rewrite Hl. apply same_page. fold mb. lia.
  - cbn [sizes_ok snd]. rewrite Hl. fold mb. split; [lia|exact Hall].
  - constructor; [|exact Hall]. cbn [snd]. rewrite Hl. lia.
  - cbn [concat]. rewrite Hc.
    replace (Z.to_nat (off + n)) with (Z.to_nat off + Z.to_nat n)%nat by lia.
    rewrite <- drop_drop, take_take_drop. f_equal. lia.
  - constructor; [|exact Hw]. cbn [fst snd].
    rewrite <- (Z2Nat.id n) at 1 by lia.
    apply burst_bytes_slice; lia.
Qed.

(** ** Picking transactions by opcode *)

Lemma opcode_sent f c rest : sent f = c :: rest -> opcode f = Some c.
Proof. destruct f as [|[a b] f]; cbn; [discriminate|]. now intros [= -> _]. Qed.

Lemma with_opcode_app c fs gs :
  with_opcode c (fs ++ gs) = with_opcode c fs ++ with_opcode c gs.
Proof. apply filter_app. Qed.

Lemma with_opcode_none c fs :
  Forall (fun g => opcode g <> Some c) fs -> with_opcode c fs = [].
Proof.
  induction 1 as [|g fs Hg _ IH]; [reflexivity|].
  unfold with_opcode in *. now rewrite filter_cons_False.
Qed.

Lemma with_opcode_one c f : opcode f = Some c -> with_opcode c [f] = [f].
Proof. intros H. unfold with_opcode. now rewrite filter_cons_True. Qed.

Lemma polls_opcodes c p :
  c <> SPIFLASH_STATUSREAD -> Forall is_poll p ->
  Forall (fun g => opcode g <> Some c) p.
Proof.
  intros Hc H. eapply Forall_impl; [exact H|].
  intros g (x & st & ->) [= E]. now destruct Hc.
Qed.

Lemma lead_opcodes w l c :
  lead w l -> c <> SPIFLASH_STATUSREAD -> c <> SPIFLASH_WRITEENABLE ->
  Forall (fun g => opcode g <> Some c) l.
Proof.
  intros Hl H5 H6. destruct w; cbn in Hl.
  - destruct Hl as (p1 & x & p2 & -> & H1 & H2).
    apply Forall_app. split; [|constructor].
    + now apply polls_opcodes, ready_polls_polls.
    + intros [= E]. now destruct H6.
    + now apply polls_opcodes, ready_polls_polls.
  - now apply polls_opcodes, ready_polls_polls.
Qed.

Lemma loop_programs buf pl r fs :
  loop_trace buf pl r fs -> r = Some tt ->
  Forall2 (fun e f => sent f = SPIFLASH_BYTEPAGEPROGRAM
                               :: addr_bytes (fst (fst e))
                               ++ burst_bytes buf (snd (fst e)) (snd e))
          pl (with_opcode SPIFLASH_BYTEPAGEPROGRAM fs).
Proof.
  induction 1 as [| |b pl l Hl|a off n pl l f r fs Hl Hf _ IH]; intros Hr;
    try discriminate.
  - constructor.
  - rewrite !with_opcode_app.
    rewrite (with_opcode_none _ l) by (apply (lead_opcodes true); easy).
    rewrite (with_opcode_one _ f) by (eapply opcode_sent; exact Hf).
    cbn [app]. constructor; auto.
Qed.

(** ** The scenarios of the specification, run on the model *)

(** S1: three bytes at address 0 go out in one burst, after the write
    enable: 0x02, 0x00 0x00 0x00, 0x11 0x22 0x33. *)
Example scenario_one_burst :
  frames (bus_trace (writeBytes idle_chip no_settings false 1 0x000000
                                [0x11; 0x22; 0x33] 3) power_on)
  = [poll_frame 0 0; we_frame 0; poll_frame 0 0;
     [(0x02, 0); (0x00, 0); (0x00, 0); (0x00, 0); (0x11, 0); (0x22, 0); (0x33, 0)]].
Proof. vm_compute. reflexivity. Qed.

(** S2: four bytes at 0x0000FE go out as two bursts, two bytes at 0x0000FE
    and two bytes at 0x000100. *)
Example scenario_two_bursts :
  with_opcode SPIFLASH_BYTEPAGEPROGRAM
    (frames (bus_trace (writeBytes idle_chip no_settings false 1 0x0000FE
                                   [0xA; 0xB; 0xC; 0xD] 4) power_on))
  = [[(0x02, 0); (0x00, 0); (0x00, 0); (0xFE, 0); (0xA, 0); (0xB, 0)];
     [(0x02, 0); (0x00, 0); (0x01, 0); (0x00, 0); (0xC, 0); (0xD, 0)]].
Proof. vm_compute. reflexivity. Qed.

(** S3 and S4: 512 bytes at 0x000100 are two bursts of 256 bytes; at
    0x000001 they are bursts of 255, 256 and 1 bytes at 0x000001, 0x000100
    and 0x000200. *)
Example scenario_aligned_512 :
  map (fun f => (take 3 (drop 1 (sent f)), length (drop 4 f)))
      (with_opcode SPIFLASH_BYTEPAGEPROGRAM
         (frames (bus_trace (writeBytes idle_chip no_settings false 1 0x000100
                                        (repeat 0x5A 512) 512) power_on)))
  = [([0; 1; 0], 256%nat); ([0; 2; 0], 256%nat)].
Proof. vm_compute. reflexivity. Qed.

Example scenario_unaligned_512 :
  map (fun f => (take 3 (drop 1 (sent f)), length (drop 4 f)))
      (with_opcode SPIFLASH_BYTEPAGEPROGRAM
         (frames (bus_trace (writeBytes idle_chip no_settings false 1 0x000001
                                        (repeat 0x5A 512) 512) power_on)))
  = [([0; 0; 1], 255%nat); ([0; 1; 0], 256%nat); ([0; 2; 0], 1%nat)].
Proof. vm_compute. reflexivity. Qed.

(** S5: [readBytes(0x012345, buf, 10)] sends 0x0B, 0x01, 0x23, 0x45, one
    dummy byte, and reads ten bytes. *)
Example scenario_read_ten :
  map sent (frames (bus_trace (readBytes idle_chip no_settings false 1 0x012345
                                         (repeat 0 10) 10) power_on))
  = [[0x05; 0]; [0x0B; 0x01; 0x23; 0x45; 0] ++ repeat 0 10].
Proof. vm_compute. reflexivity. Qed.

(** S6: expecting 0xEF30, a chip that answers 0xEF, 0x30 is accepted and
    unprotected; one that answers 0xEF, 0x40 is refused and nothing more is
    sent. *)
Example scenario_identifier_match :
  result (initialize (jedec_chip 0xEF 0x30) no_settings false 1
                     (SPIFlash_new 8 0xEF30)) power_on = Some true /\
  frames (bus_trace (initialize (jedec_chip 0xEF 0x30) no_settings false 1
                                (SPIFlash_new 8 0xEF30)) power_on)
  = [poll_frame 0 0; [(SPIFLASH_WAKE, 0)]; id_frame 0 0xEF 0x30;
     poll_frame 0 0; we_frame 0; poll_frame 0 0;
     [(SPIFLASH_STATUSWRITE, 0); (0, 0)]].
Proof. vm_compute. split; reflexivity. Qed.

Example scenario_identifier_mismatch :
  result (initialize (jedec_chip 0xEF 0x40) no_settings false 1
                     (SPIFlash_new 8 0xEF30)) power_on = Some false /\
  frames (bus_trace (initialize (jedec_chip 0xEF 0x40) no_settings false 1
                                (SPIFlash_new 8 0xEF30)) power_on)
  = [poll_frame 0 0; [(SPIFLASH_WAKE, 0)]; id_frame 0 0xEF 0x40].
Proof. vm_compute. split; reflexivity. Qed.

(** With no chip the busy bit always reads 1: [chipErase] never gets past
    its first busy-wait, and all it puts on the bus is status reads. *)
Example scenario_no_chip :
  result (chipErase absent_chip no_settings false 3) power_on = None /\
  frames (bus_trace (chipErase absent_chip no_settings false 3) power_on)
  = [poll_frame 0xFF 0xFF; poll_frame 0xFF 0xFF; poll_frame 0xFF 0xFF].
Proof. vm_compute. split; reflexivity. Qed.

(** ** The driver against its specification *)

Lemma run_shape {A} (m : M A) s (Q : option A -> list frame -> Prop) :
  triple m (trace s) (fun r t => exists fs, t = render fs /\ Q r fs) ->
  exists fs, bus_trace m s = render fs /\ Q (result m s) fs.
Proof. intros H. exact (triple_elim m s _ H). Qed.

Lemma lor_shiftl_add m d :
  0 <= m -> 0 <= d < 256 -> Z.lor (Z.shiftl m 8) d = 256 * m + d.
Proof.
  intros Hm Hd.
  assert (Hdisj : Z.land (Z.shiftl m 8) d = 0).
  { apply Z.bits_inj'. intros n Hn. rewrite Z.land_spec, Z.bits_0.
    destruct (Z.ltb_spec n 8).
    - now rewrite Z.shiftl_spec_low.
    - destruct (Z.eq_dec d 0) as [->|Hd0].
      + now rewrite Z.bits_0, andb_false_r.
      + rewrite (Z.bits_above_log2 d n), andb_false_r; try lia.
        assert (Z.log2 d < 8) by (apply Z.log2_lt_pow2; lia). lia. }
  rewrite <- Z.lxor_lor, <- Z.add_nocarry_lxor by exact Hdisj.
  rewrite Z.shiftl_mul_pow2 by lia. lia.
Qed.

(** C6: a write of length 0 puts nothing on the bus and returns; it leaves
    the whole state as it was. *)
Theorem writeBytes_zero_length chip cfg u4 patience addr buf s :
  writeBytes chip cfg u4 patience addr buf 0 s = (Some tt, s) /\
  bus_trace (writeBytes chip cfg u4 patience addr buf 0) s = [].
Proof.
  split; [reflexivity|]. unfold bus_trace. cbn. apply drop_all.
Qed.

(** C9: [readDeviceId] sends the JEDEC-ID opcode 0x9F in one transaction,
    clocks in the manufacturer byte [m] and then the device byte [d], and
    returns the 16-bit word [(m << 8) | d], that is [256 * m + d]; the
    transaction is closed by the unselect.  On the ATmega32U4 a busy-wait
    comes first, so the chip has to answer it. *)
Theorem readDeviceId_packs_big_endian chip cfg u4 patience s :
  (u4 = true -> responsive chip cfg patience) ->
  exists l x m d,
    result (readDeviceId chip cfg u4 patience) s = Some (Z.lor (Z.shiftl m 8) d) /\
    bus_trace (readDeviceId chip cfg u4 patience) s
      = render l ++ [Select; Xfer SPIFLASH_IDREAD x; Xfer 0 m; Xfer 0 d; Unselect] /\
    (if u4 then ready_polls l else l = []) /\
    0 <= m < 256 /\ 0 <= d < 256 /\
    Z.lor (Z.shiftl m 8) d = 256 * m + d.
Proof.
  intros Hresp.
  destruct (run_shape _ s _ (readDeviceId_shape chip cfg u4 patience (trace s)))
    as (fs & Ht & H).
  destruct (result (readDeviceId chip cfg u4 patience) s) as [id|] eqn:Er.
  - destruct H as (l & x & m & d & -> & Hl & Hm & Hd & ->).
    exists l, x, m, d. repeat split; auto; try lia.
    + rewrite Ht, render_app, render_one. reflexivity.
    + apply lor_shiftl_add; lia.
  - destruct H as [Hu _].
    destruct (returns_readDeviceId chip cfg u4 patience (Hresp Hu) s) as [a Ha].
    congruence.
Qed.

Lemma readDeviceId_packs_big_endian_witness :
  (true = true -> responsive idle_chip no_settings 1) /\
  exists l x m d,
    result (readDeviceId idle_chip no_settings true 1) power_on
      = Some (Z.lor (Z.shiftl m 8) d) /\
    bus_trace (readDeviceId idle_chip no_settings true 1) power_on
      = render l ++ [Select; Xfer SPIFLASH_IDREAD x; Xfer 0 m; Xfer 0 d; Unselect] /\
    (if true then ready_polls l else l = []) /\
    0 <= m < 256 /\ 0 <= d < 256 /\
    Z.lor (Z.shiftl m 8) d = 256 * m + d.
Proof.
  split.
  - intros _ s. reflexivity.
  - apply (readDeviceId_packs_big_endian idle_chip no_settings true 1 power_on).
    intros _ s. reflexivity.
Defined.

Lemma perform_trace chip cfg u4 patience self c s :
  exists fs,
    bus_trace (perform chip cfg u4 patience self c) s = preamble c ++ render fs /\
    we_guarded fs /\
    (checks_busy u4 c = true -> busy_checked fs).
Proof.
  destruct (triple_elim _ s _ (perform_frames chip cfg u4 patience self c (trace s)))
    as (fs & Ht & Hwe & Hbusy).
  exists fs. repeat split; auto. intros Hc. apply Hbusy.
  intros ->. exact Hc.
Qed.

Lemma frames_preamble c fs : frames (preamble c ++ render fs) = fs.
Proof.
  destruct c; cbn [preamble app]; rewrite ?frames_unselect; apply frames_render.
Qed.

(** C4, as the code has it: the log of every public operation but
    [initialize] is a sequence of whole transactions, each select followed by
    its unselect with only byte exchanges in between, so there are as many
    selects as unselects, whether the operation returns or is still waiting
    for the chip; [initialize] begins with an unselect of its own, so its log
    has exactly one unselect more. *)
Theorem framing_balanced_but_for_initialize chip cfg u4 patience self c s :
  let t := bus_trace (perform chip cfg u4 patience self c) s in
  (exists fs, t = preamble c ++ render fs) /\
  match c with
  | Initialize => unselects t = S (selects t)
  | _ => selects t = unselects t
  end.
Proof.
  destruct (perform_trace chip cfg u4 patience self c s) as (fs & Ht & _).
  cbv zeta. split; [now exists fs|].
  rewrite Ht, selects_app, unselects_app, selects_render, unselects_render.
  destruct c; reflexivity.
Qed.

(** C4 as stated fails: the log of [initialize] on an idle chip has three
    selects and four unselects. *)
Lemma initialize_framing_unbalanced :
  selects (bus_trace (perform idle_chip no_settings false 1
                              (SPIFlash_new 8 0xEF30) Initialize) power_on)
  <> unselects (bus_trace (perform idle_chip no_settings false 1
                                   (SPIFlash_new 8 0xEF30) Initialize) power_on).
Proof. vm_compute. discriminate. Qed.

(** C2, as the code has it: in the log of every call, a transaction with a
    mutating opcode comes after a complete write-enable transaction of the
    same call, and between the two lies exactly the busy-wait of the command:
    status reads, the last of which finds the chip ready. *)
Theorem write_enable_then_wait_before_mutation chip cfg u4 patience self c s :
  we_guarded (frames (bus_trace (perform chip cfg u4 patience self c) s)).
Proof.
  destruct (perform_trace chip cfg u4 patience self c s) as (fs & Ht & H & _).
  now rewrite Ht, frames_preamble.
Qed.

(** C2 as stated fails: in the log of [chipErase] the transaction right
    before CHIP-ERASE is a status read, not the write-enable. *)
Lemma chipErase_write_enable_not_adjacent :
  ~ we_immediately_before
      (frames (bus_trace (perform idle_chip no_settings false 1
                                  (SPIFlash_new 8 0) ChipErase) power_on)).
Proof.
  intros H.
  destruct (H [poll_frame 0 0; we_frame 0; poll_frame 0 0]
              [(SPIFLASH_CHIPERASE, 0)] [] SPIFLASH_CHIPERASE)
    as (pre & x & E); try reflexivity.
  destruct pre as [|a [|b [|d [|e pre]]]]; discriminate.
Qed.

(** C3, as the code has it: in the log of every public operation, but for
    [readDeviceId] in a build that is not for the ATmega32U4, each
    transaction that is not itself a status read comes after a status read
    of the same log, and the last status read before it found the busy bit
    clear.  This holds of the log of a call that returns and of one still
    waiting for the chip. *)
Theorem busy_checked_before_every_command chip cfg u4 patience self c s :
  checks_busy u4 c = true ->
  busy_checked (frames (bus_trace (perform chip cfg u4 patience self c) s)).
Proof.
  intros Hc.
  destruct (perform_trace chip cfg u4 patience self c s) as (fs & Ht & _ & H).
  rewrite Ht, frames_preamble. now apply H.
Qed.

Lemma busy_checked_before_every_command_witness :
  checks_busy false (WriteByte 0x0000FE 0xA5) = true /\
  busy_checked (frames (bus_trace (perform idle_chip no_settings false 1
                                           (SPIFlash_new 8 0)
                                           (WriteByte 0x0000FE 0xA5)) power_on)).
Proof.
  split.
  - reflexivity.
  - apply (busy_checked_before_every_command idle_chip no_settings false 1
             (SPIFlash_new 8 0) (WriteByte 0x0000FE 0xA5) power_on).
    reflexivity.
Defined.

(** C3 as stated fails: off the ATmega32U4, [readDeviceId] selects the
    chip and sends JEDEC-ID with no status read before it. *)
Lemma readDeviceId_sends_unchecked :
  ~ busy_checked
      (frames (bus_trace (perform idle_chip no_settings false 1
                                  (SPIFlash_new 8 0) ReadDeviceId) power_on)).
Proof.
  intros H.
  destruct (H [] (id_frame 0 0 0) [] SPIFLASH_IDREAD)
    as (pre & f0 & mid & E & _); try reflexivity; try discriminate.
  destruct pre; discriminate.
Qed.

(** C8: [readBytes] waits for the chip, then in one transaction sends the
    ARRAY-READ opcode 0x0B, the three address bytes high byte first and one
    dummy byte, clocks in exactly [len] bytes, and unselects; the bytes
    clocked in after the first five exchanges are stored in order at the
    start of the buffer.  This holds for every [len] the 16-bit parameter
    can hold. *)
Theorem readBytes_wire_shape chip cfg u4 patience addr buf len s :
  responsive chip cfg patience ->
  is_uint16 len ->
  len <= Z.of_nat (length buf) ->
  exists l f data,
    result (readBytes chip cfg u4 patience addr buf len) s
      = Some (data ++ drop (Z.to_nat len) buf) /\
    bus_trace (readBytes chip cfg u4 patience addr buf len) s
      = render l ++ [Select] ++ xfers f ++ [Unselect] /\
    ready_polls l /\
    sent f = [SPIFLASH_ARRAYREAD] ++ addr_bytes addr ++ [0]
               ++ repeat 0 (Z.to_nat len) /\
    drop 5 (received f) = data /\
    Z.of_nat (length data) = len.
Proof.
  intros Hresp Hlen Hbuf.
  destruct (triple_elim _ s _
              (readBytes_shape chip cfg u4 patience addr buf len (trace s)))
    as (fs & Ht & H).
  destruct (returns_readBytes chip cfg u4 patience Hresp addr buf len s)
    as [b Hb].
  rewrite Hb in H |- *. cbn [outcome] in H.
  destruct H as (l & f & -> & Hl & _ & Hsent & Hdata & Hres).
  exists l, f, (drop 5 (received f)). unfold is_uint16 in Hlen.
  repeat split; auto.
  - f_equal. apply Hres. lia.
  - rewrite Ht, render_app, render_one. reflexivity.
  - lia.
Qed.

Lemma readBytes_wire_shape_witness :
  (responsive idle_chip no_settings 1 /\
   is_uint16 10 /\
   10 <= Z.of_nat (length [1; 2; 3; 4; 5; 6; 7; 8; 9; 10; 11; 12])) /\
  exists l f data,
    result (readBytes idle_chip no_settings false 1 0x012345
                      [1; 2; 3; 4; 5; 6; 7; 8; 9; 10; 11; 12] 10) power_on
      = Some (data ++ drop (Z.to_nat 10) [1; 2; 3; 4; 5; 6; 7; 8; 9; 10; 11; 12]) /\
    bus_trace (readBytes idle_chip no_settings false 1 0x012345
                         [1; 2; 3; 4; 5; 6; 7; 8; 9; 10; 11; 12] 10) power_on
      = render l ++ [Select] ++ xfers f ++ [Unselect] /\
    ready_polls l /\
    sent f = [SPIFLASH_ARRAYREAD] ++ addr_bytes 0x012345 ++ [0]
               ++ repeat 0 (Z.to_nat 10) /\
    drop 5 (received f) = data /\
    Z.of_nat (length data) = 10.
Proof.
  assert (H1 : responsive idle_chip no_settings 1) by (intros s; reflexivity).
  assert (H2 : is_uint16 10) by (unfold is_uint16; lia).
  assert (H3 : 10 <= Z.of_nat (length [1; 2; 3; 4; 5; 6; 7; 8; 9; 10; 11; 12]))
    by (cbn; lia).
  split; [auto|].
  exact (readBytes_wire_shape idle_chip no_settings false 1 0x012345
           [1; 2; 3; 4; 5; 6; 7; 8; 9; 10; 11; 12] 10 power_on H1 H2 H3).
Defined.

Lemma triple_forget {A} (m : M A) h (R : bool -> list event -> Prop) :
  triple m h (fun r t => R (returned r) t) ->
  triple (_ <- m ;; ret tt) h (fun r t => R (returned r) t).
Proof.
  intros H. tstep. eapply triple_mono; [exact H|].
  intros [a|] t HR; [|exact HR]. tstep. now rewrite app_nil_r.
Qed.

Lemma addr_bytes_decode a :
  0 <= a < 16777216 ->
  65536 * Z.land (Z.shiftr a 16) 255 + 256 * Z.land (Z.shiftr a 8) 255
    + Z.land a 255 = a.
Proof.
  intros H. change 255 with (Z.ones 8).
  rewrite !Z.land_ones, !Z.shiftr_div_pow2 by lia.
  change (2 ^ 8) with 256. change (2 ^ 16) with 65536.
  pose proof (Z.div_mod a 256 ltac:(lia)).
  pose proof (Z.mod_pos_bound a 256 ltac:(lia)).
  pose proof (Z.div_mod (a / 256) 256 ltac:(lia)).
  pose proof (Z.mod_pos_bound (a / 256) 256 ltac:(lia)).
  assert (E : a / 65536 = a / 256 / 256)
    by (rewrite Z.div_div by lia; reflexivity).
  rewrite E.
  assert (0 <= a / 256 / 256 < 256).
  { split; [apply Z.div_pos; [apply Z.div_pos|]; lia|].
    apply Z.div_lt_upper_bound; [lia|].
    apply Z.div_lt_upper_bound; lia. }
  rewrite (Z.mod_small (a / 256 / 256)) by lia. lia.
Qed.

Section Addresses.

Variable chip : list event -> Z -> Z.
Variable cfg : Z * Z -> Z * Z.
Variable u4 : bool.
Variable patience : nat.
Variable self : SPIFlash.

Lemma carries_outcome {A} w op a (P : frame -> A -> Prop) r t :
  op <> SPIFLASH_STATUSREAD -> op <> SPIFLASH_WRITEENABLE ->
  (forall f x, P f x -> exists rest, sent f = op :: addr_bytes a ++ rest) ->
  framed w op P r t -> carries op a (returned r) t.
Proof.
  intros H5 H6 HP (fs & -> & H). exists fs. split; [reflexivity|].
  destruct r as [x|]; [|discriminate]. intros _. cbn in H.
  destruct H as (l & f & -> & Hl & _ & Hf).
  destruct (HP _ _ Hf) as [rest Hrest].
  exists l, f, [], rest. repeat split; auto.
  now apply (lead_opcodes w).
Qed.

Lemma addressed_carries c op a h :
  addressed c = Some (op, a) ->
  triple (perform chip cfg u4 patience self c) h
         (fun r t => carries op a (returned r) t).
Proof.
  destruct c; cbn [addressed perform]; try discriminate.
  - intros [= <- <-]. apply triple_forget.
    eapply triple_mono; [apply readByte_shape|]. intros r t.
    apply carries_outcome; try easy.
    intros f x [Hs _]. exists [0]. exact Hs.
  - intros [= <- <-]. apply triple_forget.
    eapply triple_mono; [apply readBytes_shape|]. intros r t.
    apply carries_outcome; try easy.
    intros f x [Hs _]. eexists. exact Hs.
  - intros [= <- <-].
    eapply triple_mono; [apply writeByte_shape|]. intros r t.
    apply carries_outcome; try easy.
    intros f x Hs. eexists. exact Hs.
  - destruct (Z.ltb_spec 0 len) as [Hlen|Hlen]; [|discriminate].
    intros [= <- <-].
    eapply triple_mono; [apply writeBytes_shape|].
    intros r t (fs & -> & H). exists fs. split; [reflexivity|].
    destruct r as [[]|]; [|discriminate]. intros _.
    destruct (Z.to_nat len) as [|k] eqn:Ek; [lia|].
    cbn [burst_plan] in H.
    destruct (Z.ltb_spec 0 len) as [_|]; [|lia].
    inversion H as [| | |a0 off n pl l f r fs' Hl Hf Hrest]; subst.
    exists l, f, fs', (burst_bytes buf 0
                         (if len <=? first_maxBytes addr
                          then len else first_maxBytes addr)).
    repeat split; auto. now apply (lead_opcodes true).
  - intros [= <- <-].
    eapply triple_mono; [apply blockErase4K_shape|]. intros r t.
    apply carries_outcome; try easy.
    intros f x Hs. exists []. now rewrite app_nil_r.
  - intros [= <- <-].
    eapply triple_mono; [apply blockErase32K_shape|]. intros r t.
    apply carries_outcome; try easy.
    intros f x Hs. exists []. now rewrite app_nil_r.
Qed.

End Addresses.

(** C7: every command that takes an address ([readByte], [readBytes],
    [writeByte], [writeBytes] of at least one byte, [blockErase4K],
    [blockErase32K]) sends, right after its opcode, the three bytes
    [(a>>16)&0xFF], [(a>>8)&0xFF], [a&0xFF] in this order; for a 24-bit
    address these are its big-endian digits. *)
Theorem address_sent_big_endian chip cfg u4 patience self c op a s :
  responsive chip cfg patience ->
  addressed c = Some (op, a) ->
  exists pre f post,
    frames (bus_trace (perform chip cfg u4 patience self c) s) = pre ++ f :: post /\
    Forall (fun g => opcode g <> Some op) pre /\
    opcode f = Some op /\
    take 3 (drop 1 (sent f))
      = [Z.land (Z.shiftr a 16) 255; Z.land (Z.shiftr a 8) 255; Z.land a 255] /\
    (0 <= a < 16777216 ->
     65536 * Z.land (Z.shiftr a 16) 255 + 256 * Z.land (Z.shiftr a 8) 255
       + Z.land a 255 = a).
Proof.
  intros Hresp Hc.
  destruct (triple_elim _ s _
              (addressed_carries chip cfg u4 patience self c op a (trace s) Hc))
    as (fs & Ht & H).
  destruct (returns_perform chip cfg u4 patience self Hresp c s) as [[] Hr].
  rewrite Hr in H. destruct (H eq_refl) as (l & f & post & rest & -> & Hl & Hf).
  exists l, f, post. rewrite Ht, frames_render. repeat split; auto.
  - eapply opcode_sent. exact Hf.
  - rewrite Hf. reflexivity.
  - apply addr_bytes_decode.
Qed.

Lemma address_sent_big_endian_witness :
  (responsive idle_chip no_settings 1 /\
   addressed (ReadBytes 0x012345 [0; 0; 0] 3) = Some (SPIFLASH_ARRAYREAD, 0x012345)) /\
  exists pre f post,
    frames (bus_trace (perform idle_chip no_settings false 1 (SPIFlash_new 8 0)
                               (ReadBytes 0x012345 [0; 0; 0] 3)) power_on)
      = pre ++ f :: post /\
    Forall (fun g => opcode g <> Some SPIFLASH_ARRAYREAD) pre /\
    opcode f = Some SPIFLASH_ARRAYREAD /\
    take 3 (drop 1 (sent f))
      = [Z.land (Z.shiftr 0x012345 16) 255; Z.land (Z.shiftr 0x012345 8) 255;
         Z.land 0x012345 255] /\
    (0 <= 0x012345 < 16777216 ->
     65536 * Z.land (Z.shiftr 0x012345 16) 255
       + 256 * Z.land (Z.shiftr 0x012345 8) 255 + Z.land 0x012345 255 = 0x012345).
Proof.
  assert (H1 : responsive idle_chip no_settings 1) by (intros s; reflexivity).
  split; [split; [exact H1|reflexivity]|].
  exact (address_sent_big_endian idle_chip no_settings false 1 (SPIFlash_new 8 0)
           (ReadBytes 0x012345 [0; 0; 0] 3) SPIFLASH_ARRAYREAD 0x012345 power_on
           H1 eq_refl).
Defined.

Lemma id_read_functional u4 idp id1 id2 :
  id_read u4 idp id1 -> id_read u4 idp id2 -> id1 = id2.
Proof.
  intros (l & x & m & d & -> & _ & _ & _ & ->)
         (l' & x' & m' & d' & E & _ & _ & _ & ->).
  apply app_inj_tail in E as [_ E]. now injection E as -> -> ->.
Qed.

Lemma unprotect_returns_true b sw :
  unprotect_outcome (Some b) sw -> b = true.
Proof. intros (l & f & _ & _ & _ & _ & ->). reflexivity. Qed.

(** C5: with a chip that answers, [initialize] logs an unselect and wakes
    the chip up; if the expected identifier is 0 it reads no identifier; if
    not, it reads the identifier (the transaction of [readDeviceId]).  It
    returns [true] exactly when the expected identifier is 0 or equals the
    identifier read.  When it returns [false] nothing follows the identifier
    read; when it returns [true] the log ends with the STATUS-WRITE command:
    write-enable, busy-wait, then opcode 0x01 with the payload byte 0. *)
Theorem initialize_probes_identifier chip cfg u4 patience self s :
  responsive chip cfg patience ->
  exists b wk idp sw,
    result (initialize chip cfg u4 patience self) s = Some b /\
    bus_trace (initialize chip cfg u4 patience self) s
      = Unselect :: render (wk ++ idp ++ sw) /\
    wake_outcome (Some tt) wk /\
    (_jedecID self = 0 -> idp = []) /\
    (_jedecID self <> 0 -> exists id, id_read u4 idp id) /\
    (b = true <->
     _jedecID self = 0 \/ (exists id, id_read u4 idp id /\ id = _jedecID self)) /\
    (b = false -> sw = []) /\
    (b = true ->
     exists l f, sw = l ++ [f] /\ lead true l /\
                 sent f = [SPIFLASH_STATUSWRITE; 0]).
Proof.
  intros Hresp.
  destruct (triple_elim _ s _
              (initialize_shape chip cfg u4 patience self (trace s)))
    as (fs & Ht & H).
  destruct (returns_initialize chip cfg u4 patience self Hresp s) as [b Hb].
  rewrite Hb in H. exists b.
  inversion H as [|
                 |wk idp id Hwk Hj Hid Hne
                 |wk idp r sw Hwk Hj Hid Hsw
                 |wk r sw Hwk Hj Hsw]; subst.
  - exists wk, idp, []. rewrite app_nil_r. repeat split; auto; try easy.
    + eauto.
    + intros [E|(id' & Hid' & E)]; [easy|].
      destruct Hne. rewrite <- E. eapply id_read_functional; eauto.
  - pose proof (unprotect_returns_true _ _ Hsw) as ->.
    exists wk, idp, sw. repeat split; auto; try easy.
    + eauto.
    + right. eauto.
    + intros _. destruct Hsw as (l & f & -> & Hl & _ & Hs & _). eauto.
  - pose proof (unprotect_returns_true _ _ Hsw) as ->.
    exists wk, [], sw. repeat split; auto; try easy.
    + intros _. destruct Hsw as (l & f & -> & Hl & _ & Hs & _). eauto.
Qed.

Lemma initialize_probes_identifier_witness :
  responsive idle_chip no_settings 1 /\
  exists b wk idp sw,
    result (initialize idle_chip no_settings false 1 (SPIFlash_new 8 0xEF30))
           power_on = Some b /\
    bus_trace (initialize idle_chip no_settings false 1 (SPIFlash_new 8 0xEF30))
              power_on
      = Unselect :: render (wk ++ idp ++ sw) /\
    wake_outcome (Some tt) wk /\
    (_jedecID (SPIFlash_new 8 0xEF30) = 0 -> idp = []) /\
    (_jedecID (SPIFlash_new 8 0xEF30) <> 0 -> exists id, id_read false idp id) /\
    (b = true <->
     _jedecID (SPIFlash_new 8 0xEF30) = 0 \/
     (exists id, id_read false idp id /\ id = _jedecID (SPIFlash_new 8 0xEF30))) /\
    (b = false -> sw = []) /\
    (b = true ->
     exists l f, sw = l ++ [f] /\ lead true l /\
                 sent f = [SPIFLASH_STATUSWRITE; 0]).
Proof.
  assert (H1 : responsive idle_chip no_settings 1) by (intros s; reflexivity).
  split; [exact H1|].
  exact (initialize_probes_identifier idle_chip no_settings false 1
           (SPIFlash_new 8 0xEF30) power_on H1).
Defined.

Lemma on_wire_plan buf pl fs :
  Forall2 (fun e f => sent f = SPIFLASH_BYTEPAGEPROGRAM
                               :: addr_bytes (fst (fst e))
                               ++ burst_bytes buf (snd (fst e)) (snd e)) pl fs ->
  Forall (fun e => burst_bytes buf (snd (fst e)) (snd e) =
                   map to_uint8 (take (Z.to_nat (snd e))
                                      (drop (Z.to_nat (snd (fst e))) buf))) pl ->
  Forall2 on_wire (plan_bursts buf pl) fs.
Proof.
  induction 1 as [|e f pl fs Hf _ IH]; intros Hb; cbn [plan_bursts map].
  - constructor.
  - apply Forall_cons in Hb as [He Hb]. constructor; [|now apply IH].
    unfold on_wire. cbn [fst snd]. now rewrite Hf, He.
Qed.

(** C1, as the code has it: for an address that is not negative and a
    write that stays within the range of [long], [writeBytes] returns and
    its program transactions, in order, are the bursts of a page split of
    the buffer: they tile the addresses from [addr] to [addr + len], none
    crosses a multiple of 256, the first holds at most [256 - addr mod 256]
    bytes and the others at most 256, and their data put end to end is the
    buffer.  Each burst goes on the wire as opcode 0x02, the three bytes of
    its own address, and its data. *)
Theorem writeBytes_page_split chip cfg u4 patience addr buf len s :
  responsive chip cfg patience ->
  0 <= addr -> addr + len < 2147483648 ->
  len = Z.of_nat (length buf) -> len < 65536 ->
  result (writeBytes chip cfg u4 patience addr buf len) s = Some tt /\
  exists bs,
    Forall2 on_wire bs
      (with_opcode SPIFLASH_BYTEPAGEPROGRAM
         (frames (bus_trace (writeBytes chip cfg u4 patience addr buf len) s))) /\
    page_split addr buf bs.
Proof.
  intros Hresp Haddr Hmax Hlen Hsz.
  destruct (triple_elim _ s _
              (writeBytes_shape chip cfg u4 patience addr buf len (trace s)))
    as (fs & Ht & H).
  destruct (returns_writeBytes chip cfg u4 patience Hresp addr buf len s)
    as [[] Hr].
  rewrite Hr in H |- *. split; [reflexivity|].
  rewrite Ht, frames_render.
  rewrite first_maxBytes_nonneg in H by exact Haddr.
  destruct (plan_page_split buf (Z.to_nat len) addr len 0)
    as (Htiles & Hpages & Hsizes & _ & Hcat & Hbytes); try lia.
  exists (plan_bursts buf (burst_plan (Z.to_nat len) addr len
                                      (256 - addr mod 256) 0)).
  split.
  - apply on_wire_plan; [|exact Hbytes]. now apply (loop_programs buf _ (Some tt)).
  - unfold page_split. rewrite <- Hlen. repeat split; auto.
    rewrite Hcat. cbn [Z.to_nat drop]. apply take_ge. lia.
Qed.

Lemma writeBytes_page_split_witness :
  (responsive idle_chip no_settings 1 /\
   0 <= 0x0000FE /\ 0x0000FE + 4 < 2147483648 /\
   4 = Z.of_nat (length [10; 11; 12; 13]) /\ 4 < 65536) /\
  result (writeBytes idle_chip no_settings false 1 0x0000FE [10; 11; 12; 13] 4)
         power_on = Some tt /\
  exists bs,
    Forall2 on_wire bs
      (with_opcode SPIFLASH_BYTEPAGEPROGRAM
         (frames (bus_trace (writeBytes idle_chip no_settings false 1 0x0000FE
                                        [10; 11; 12; 13] 4) power_on))) /\
    page_split 0x0000FE [10; 11; 12; 13] bs.
Proof.
  assert (H1 : responsive idle_chip no_settings 1) by (intros s; reflexivity).
  assert (H2 : 0 <= 0x0000FE) by lia.
  assert (H3 : 0x0000FE + 4 < 2147483648) by lia.
  assert (H4 : 4 = Z.of_nat (length [10; 11; 12; 13])) by reflexivity.
  assert (H5 : 4 < 65536) by lia.
  split; [auto|].
  exact (writeBytes_page_split idle_chip no_settings false 1 0x0000FE
           [10; 11; 12; 13] 4 power_on H1 H2 H3 H4 H5).
Defined.

(** C1 as stated fails for a negative address: [writeBytes(-1, buf, 2)]
    sends both bytes in one burst, which starts at address -1 and ends at
    address 0, across a multiple of 256. *)
Lemma writeBytes_negative_address_no_page_split :
  ~ exists bs,
      Forall2 on_wire bs
        (with_opcode SPIFLASH_BYTEPAGEPROGRAM
           (frames (bus_trace (writeBytes idle_chip no_settings false 1 (-1)
                                          [1; 2] 2) power_on))) /\
      page_split (-1) [1; 2] bs.
Proof.
  intros (bs & Hw & Ht & Hp & _).
  assert (E : with_opcode SPIFLASH_BYTEPAGEPROGRAM
                (frames (bus_trace (writeBytes idle_chip no_settings false 1 (-1)
                                               [1; 2] 2) power_on))
              = [[(2, 0); (255, 0); (255, 0); (255, 0); (1, 0); (2, 0)]])
    by (vm_compute; reflexivity).
  rewrite E in Hw. clear E.
  inversion Hw as [|b f bs' fs' Hb Hnil]; subst.
  inversion Hnil; subst.
  destruct b as [a d]. unfold on_wire in Hb. cbn in Hb, Ht.
  destruct Ht as (-> & _ & _).
  apply Forall_cons in Hp as [Hp _]. unfold in_one_page in Hp. cbn [fst snd] in Hp.
  injection Hb as Hd.
  assert (Hl : length d = 2%nat).
  { apply (f_equal (@length Z)) in Hd. rewrite length_map in Hd. cbn in Hd. lia. }
  rewrite Hl in Hp. vm_compute in Hp. discriminate.
Qed.

Lemma crosses_page addr n :
  addr < 0 -> 0 < (- addr) mod 256 -> (- addr) mod 256 < n ->
  addr / 256 <> (addr + n - 1) / 256.
Proof.
  intros Hneg Hr Hn.
  pose proof (Z.div_mod (- addr) 256 ltac:(lia)) as E.
  pose proof (Z.mod_pos_bound (- addr) 256 ltac:(lia)) as B.
  set (q := (- addr) / 256) in *. set (r := (- addr) mod 256) in *.
  assert (E1 : addr / 256 = - q - 1).
  { symmetry. apply (Z.div_unique _ _ _ (256 - r)); lia. }
  assert (E2 : - q <= (addr + n - 1) / 256).
  { apply Z.div_le_lower_bound; lia. }
  lia.
Qed.

(** C10: [writeBytes] computes the limit of its first burst with the
    truncating remainder of a signed address.  For a negative address that
    is not a multiple of 256 the limit is [256 + (-addr) mod 256], more than
    a page; a write longer than the [(-addr) mod 256] bytes left in the page
    sends [min len limit] bytes in its first burst, whose first and last
    addresses lie in different pages. *)
Theorem negative_address_first_burst_crosses chip cfg u4 patience addr buf len s :
  responsive chip cfg patience ->
  addr < 0 -> Z.rem addr 256 <> 0 ->
  (- addr) mod 256 < len ->
  let n := Z.min len (first_maxBytes addr) in
  first_maxBytes addr = 256 + (- addr) mod 256 /\
  256 < first_maxBytes addr /\
  exists l f post,
    frames (bus_trace (writeBytes chip cfg u4 patience addr buf len) s)
      = l ++ f :: post /\
    lead true l /\
    sent f = SPIFLASH_BYTEPAGEPROGRAM :: addr_bytes addr ++ burst_bytes buf 0 n /\
    Z.of_nat (length (burst_bytes buf 0 n)) = n /\
    addr / 256 <> (addr + n - 1) / 256.
Proof.
  intros Hresp Hneg Hrem Hlen n.
  destruct (first_maxBytes_neg addr Hneg Hrem) as [Hmb Hr].
  split; [exact Hmb|]. split; [lia|].
  destruct (triple_elim _ s _
              (writeBytes_shape chip cfg u4 patience addr buf len (trace s)))
    as (fs & Ht & H).
  destruct (returns_writeBytes chip cfg u4 patience Hresp addr buf len s)
    as [[] Hr'].
  rewrite Hr' in H. rewrite Ht, frames_render.
  destruct (Z.to_nat len) as [|k] eqn:Ek; [lia|].
  cbn [burst_plan] in H. destruct (Z.ltb_spec 0 len) as [_|]; [|lia].
  assert (En : (if len <=? first_maxBytes addr then len else first_maxBytes addr) = n).
  { unfold n. destruct (Z.leb_spec len (first_maxBytes addr)); lia. }
  rewrite En in H.
  inversion H as [| | |a0 off n0 pl l f r fs' Hl Hf Hrest]; subst.
  exists l, f, fs'. repeat split; auto.
  - unfold burst_bytes. rewrite length_map, length_seqZ. lia.
  - apply crosses_page; lia.
Qed.

Lemma negative_address_first_burst_crosses_witness :
  (responsive idle_chip no_settings 1 /\
   -1 < 0 /\ Z.rem (-1) 256 <> 0 /\ (- -1) mod 256 < 2) /\
  let n := Z.min 2 (first_maxBytes (-1)) in
  first_maxBytes (-1) = 256 + (- -1) mod 256 /\
  256 < first_maxBytes (-1) /\
  exists l f post,
    frames (bus_trace (writeBytes idle_chip no_settings false 1 (-1) [1; 2] 2)
                      power_on)
      = l ++ f :: post /\
    lead true l /\
    sent f = SPIFLASH_BYTEPAGEPROGRAM :: addr_bytes (-1) ++ burst_bytes [1; 2] 0 n /\
    Z.of_nat (length (burst_bytes [1; 2] 0 n)) = n /\
    (-1) / 256 <> (-1 + n - 1) / 256.
Proof.
  assert (H1 : responsive idle_chip no_settings 1) by (intros s; reflexivity).
  assert (H2 : -1 < 0) by lia.
  assert (H3 : Z.rem (-1) 256 <> 0) by (vm_compute; discriminate).
  assert (H4 : (- -1) mod 256 < 2) by (vm_compute; reflexivity).
  split; [auto|].
  exact (negative_address_first_burst_crosses idle_chip no_settings false 1 (-1)
           [1; 2] 2 power_on H1 H2 H3 H4).
Defined.

(** ** More of the driver: what a call leaves behind *)

Lemma wp_bind {A B} (m : M A) (f : A -> M B) s (Q : option B -> mcu -> Prop) :
  wp m s (fun r s1 => match r with
                      | Some a => wp (f a) s1 Q
                      | None => Q None s1
                      end) ->
  wp (bind m f) s Q.
Proof. unfold wp, bind. destruct (m s) as [[a|] s1]; cbn; auto. Qed.

Lemma wp_mono {A} (m : M A) s (Q Q' : option A -> mcu -> Prop) :
  wp m s Q -> (forall r s', Q r s' -> Q' r s') -> wp m s Q'.
Proof. unfold wp. auto. Qed.












Section Resting.

Variable chip : list event -> Z -> Z.
Variable cfg : Z * Z -> Z * Z.
Variable u4 : bool.
Variable patience : nat.
Variable self : SPIFlash.
Variable s0 : mcu.





















End Resting.

(** ** More of the driver: what no call touches *)

Lemma keeps_bind {A B} (X : mcu -> mcu -> Prop) (m : M A) (f : A -> M B) :
  (forall s1 s2 s3, X s1 s2 -> X s2 s3 -> X s1 s3) ->
  keeps X m -> (forall a, keeps X (f a)) -> keeps X (bind m f).
Proof.
  intros Htrans Hm Hf s. specialize (Hm s). unfold bind.
  destruct (m s) as [[a|] s1]; cbn in *; auto.
  exact (Htrans _ _ _ Hm (Hf a s1)).
Qed.

Section Keeping.

Variable chip : list event -> Z -> Z.
Variable cfg : Z * Z -> Z * Z.
Variable u4 : bool.
Variable patience : nat.
Variable self : SPIFlash.

(** A relation that is a preorder and that the steps shared by all calls
    keep: logging, the interrupt flag, the SPI registers and their saved
    copies, the chip-select level, and the port B lines of [command]. *)
Variable X : mcu -> mcu -> Prop.
Hypothesis X_refl : forall s, X s s.
Hypothesis X_trans : forall s1 s2 s3, X s1 s2 -> X s2 s3 -> X s1 s3.
Hypothesis X_trace : forall f s, X s (set_trace f s).
Hypothesis X_SREG_I : forall b s, X s (set_SREG_I b s).
Hypothesis X_SPI : forall cr sr s, X s (set_SPI cr sr s).
Hypothesis X_saved : forall cr sr s, X s (set_saved cr sr s).
Hypothesis X_ss_high : forall b s, X s (set_ss_high b s).
Hypothesis X_portB : keeps X (command_portB u4).

Lemma keeps_ret {A} (a : A) : keeps X (ret a).
Proof. intros s. apply X_refl. Qed.

Lemma keeps_spin {A} : keeps X (@spin A).
Proof. intros s. apply X_refl. Qed.

Lemma keeps_transfer v : keeps X (SPI_transfer chip v).
Proof. intros s. apply X_trace. Qed.

Lemma keeps_select : keeps X (select cfg).
Proof.
  intros s. cbn.
  eapply X_trans; [|apply X_trace]. eapply X_trans; [|apply X_ss_high].
  eapply X_trans; [|apply X_SPI]. eapply X_trans; [|apply X_saved].
  apply X_SREG_I.
Qed.

Lemma keeps_unselect : keeps X unselect.
Proof.
  intros s. cbn.
  eapply X_trans; [|apply X_SREG_I]. eapply X_trans; [|apply X_SPI].
  eapply X_trans; [|apply X_trace]. apply X_ss_high.
Qed.

Ltac kept :=
  repeat lazymatch goal with
    | |- keeps _ (bind _ _) => apply keeps_bind; [exact X_trans| |intros ?]
    | |- keeps _ (ret _) => apply keeps_ret
    | |- keeps _ spin => apply keeps_spin
    | |- keeps _ (SPI_transfer _ _) => apply keeps_transfer
    | |- keeps _ (select _) => apply keeps_select
    | |- keeps _ unselect => apply keeps_unselect
    | |- keeps _ (command_portB _) => apply X_portB
    end.

Lemma keeps_busy_wait fuel : keeps X (busy_wait chip cfg fuel).
Proof.
  induction fuel as [|fuel IH]; cbn [busy_wait]; [kept|].
  unfold busy, readStatus. kept. destruct a; [exact IH|kept].
Qed.

Lemma keeps_command_rec depth : forall c w,
  keeps X (command_rec chip cfg u4 patience depth c w).
Proof.
  induction depth as [|depth IH]; intros c w; cbn [command_rec]; kept;
    try apply keeps_busy_wait; destruct w; kept. apply IH.
Qed.

Lemma keeps_command c w : keeps X (command chip cfg u4 patience c w).
Proof. apply keeps_command_rec. Qed.












End Keeping.










(** ** More of the driver: the other commands on the wire *)

(** X6: [readByte] waits for the chip, then in one transaction sends the
    low-frequency read opcode 0x03 and the three address bytes, with no
    dummy byte, clocks in one byte and returns it. *)
Theorem readByte_wire_shape chip cfg u4 patience addr s :
  responsive chip cfg patience ->
  exists l f r,
    result (readByte chip cfg u4 patience addr) s = Some r /\
    bus_trace (readByte chip cfg u4 patience addr) s
      = render l ++ [Select] ++ xfers f ++ [Unselect] /\
    ready_polls l /\
    sent f = [SPIFLASH_ARRAYREADLOWFREQ] ++ addr_bytes addr ++ [0] /\
    drop 4 (received f) = [r].
Proof.
  intros Hresp.
  destruct (triple_elim _ s _
              (readByte_shape chip cfg u4 patience addr (trace s)))
    as (fs & Ht & H).
  destruct (returns_readByte chip cfg u4 patience Hresp addr s) as [r Hr].
  rewrite Hr in H |- *. cbn [outcome] in H.
  destruct H as (l & f & -> & Hl & _ & Hsent & Hrec).
  exists l, f, r. repeat split; auto.
  rewrite Ht, render_app, render_one. reflexivity.
Qed.

Lemma readByte_wire_shape_witness :
  responsive idle_chip no_settings 1 /\
  exists l f r,
    result (readByte idle_chip no_settings false 1 0x012345) power_on = Some r /\
    bus_trace (readByte idle_chip no_settings false 1 0x012345) power_on
      = render l ++ [Select] ++ xfers f ++ [Unselect] /\
    ready_polls l /\
    sent f = [SPIFLASH_ARRAYREADLOWFREQ] ++ addr_bytes 0x012345 ++ [0] /\
    drop 4 (received f) = [r].
Proof.
  assert (H1 : responsive idle_chip no_settings 1) by (intros s; reflexivity).
  split; [exact H1|].
  exact (readByte_wire_shape idle_chip no_settings false 1 0x012345 power_on H1).
Defined.

Lemma wire_outcome chip cfg u4 patience self c w op rest s :
  responsive chip cfg patience ->
  triple (perform chip cfg u4 patience self c) (trace s)
         (framed w op (fun f _ => sent f = op :: rest)) ->
  exists l f,
    result (perform chip cfg u4 patience self c) s = Some tt /\
    bus_trace (perform chip cfg u4 patience self c) s = render (l ++ [f]) /\
    lead w l /\ sent f = op :: rest.
Proof.
  intros Hresp H. destruct (triple_elim _ s _ H) as (fs & Ht & Ho).
  destruct (returns_perform chip cfg u4 patience self Hresp c s) as [[] Hr].
  rewrite Hr in Ho |- *. cbn [outcome] in Ho.
  destruct Ho as (l & f & -> & Hl & _ & Hs). exists l, f. auto.
Qed.

(** X7: each call that is one command and reads nothing back ([writeByte],
    [chipErase], [blockErase4K], [blockErase32K], [sleep], [wakeup]) puts on
    the bus its lead and one transaction with exactly the bytes of
    [wire_bytes]: the opcode, the address if it takes one, the data byte of
    [writeByte].  The lead holds the write-enable transaction exactly when
    the opcode is a mutating one: the program and erase commands are write
    enabled, [sleep] and [wakeup] are not. *)
Theorem one_command_wire_shape chip cfg u4 patience self c op rest s :
  responsive chip cfg patience ->
  wire_bytes c = Some (op :: rest) ->
  exists l f,
    result (perform chip cfg u4 patience self c) s = Some tt /\
    bus_trace (perform chip cfg u4 patience self c) s = render (l ++ [f]) /\
    lead (mutating op) l /\
    sent f = op :: rest.
Proof.
  intros Hresp Hc.
  destruct c; cbn [wire_bytes] in Hc; try discriminate;
    injection Hc as <- <-;
    apply (wire_outcome chip cfg u4 patience self); auto; cbn [perform].
  - apply writeByte_shape.
  - apply chipErase_shape.
  - apply blockErase4K_shape.
  - apply blockErase32K_shape.
  - apply sleep_shape.
  - apply wakeup_shape.
Qed.

Lemma one_command_wire_shape_witness :
  (responsive idle_chip no_settings 1 /\
   wire_bytes (BlockErase4K 0x012345)
   = Some (SPIFLASH_BLOCKERASE_4K :: addr_bytes 0x012345)) /\
  exists l f,
    result (perform idle_chip no_settings false 1 (SPIFlash_new 8 0)
                    (BlockErase4K 0x012345)) power_on = Some tt /\
    bus_trace (perform idle_chip no_settings false 1 (SPIFlash_new 8 0)
                       (BlockErase4K 0x012345)) power_on = render (l ++ [f]) /\
    lead (mutating SPIFLASH_BLOCKERASE_4K) l /\
    sent f = SPIFLASH_BLOCKERASE_4K :: addr_bytes 0x012345.
Proof.
  assert (H1 : responsive idle_chip no_settings 1) by (intros s; reflexivity).
  split; [split; [exact H1|reflexivity]|].
  exact (one_command_wire_shape idle_chip no_settings false 1 (SPIFlash_new 8 0)
           (BlockErase4K 0x012345) SPIFLASH_BLOCKERASE_4K (addr_bytes 0x012345)
           power_on H1 eq_refl).
Defined.

(** ** More of the driver: how the calls relate *)

Lemma bind_congr {A B} (m m' : M A) (f f' : A -> M B) s :
  m s = m' s -> (forall a s1, f a s1 = f' a s1) ->
  bind m f s = bind m' f' s.
Proof.
  intros Hm Hf. unfold bind. rewrite Hm.
  destruct (m' s) as [[a|] s1]; auto.
Qed.

(** X8: [writeByte(addr, b)] is [writeBytes] of the one-byte buffer [b]:
    from every state the two calls return the same, put the same on the bus
    and leave the same state, for every address, negative ones included. *)
Theorem writeByte_is_writeBytes_of_one chip cfg u4 patience addr b s :
  writeBytes chip cfg u4 patience addr [b] 1 s
  = writeByte chip cfg u4 patience addr b s.
Proof.
  unfold writeBytes, writeByte.
  change (Z.to_nat 1) with 1%nat. cbn [writeBytes_loop].
  change (0 <? 1) with true. cbv iota.
  assert (E : (if 1 <=? first_maxBytes addr then 1 else first_maxBytes addr) = 1).
  { pose proof (first_maxBytes_range addr).
    destruct (Z.leb_spec 1 (first_maxBytes addr)); lia. }
  rewrite E. change (Z.to_nat 1) with 1%nat. cbn [writeBytes_send].
  change (0 <? to_uint16 (1 - 1)) with false. cbv iota.
  change (nth (Z.to_nat (to_uint16 (0 + 0))) [b] 0) with b.
  apply bind_congr; [reflexivity|intros _ s1].
  apply bind_congr; [reflexivity|intros _ s2].
  reflexivity.
Qed.

Lemma low_byte_congr a a' k :
  0 <= k <= 16 -> a mod 16777216 = a' mod 16777216 ->
  to_uint8 (Z.shiftr a k) = to_uint8 (Z.shiftr a' k).
Proof.
  intros Hk H. unfold to_uint8. change 256 with (2 ^ 8).
  apply Z.bits_inj'. intros n Hn.
  destruct (Z.ltb_spec n 8) as [Hlt|Hge].
  - rewrite !Z.mod_pow2_bits_low, !Z.shiftr_spec by lia.
    rewrite <- (Z.mod_pow2_bits_low a 24), <- (Z.mod_pow2_bits_low a' 24) by lia.
    change (2 ^ 24) with 16777216. now rewrite H.
  - rewrite !Z.mod_pow2_bits_high by lia. reflexivity.
Qed.

Lemma transfer_congr chip v v' s :
  to_uint8 v = to_uint8 v' -> SPI_transfer chip v s = SPI_transfer chip v' s.
Proof. intros H. unfold SPI_transfer. now rewrite H. Qed.

Lemma send_addr_congr chip a a' s :
  a mod 16777216 = a' mod 16777216 -> send_addr chip a s = send_addr chip a' s.
Proof.
  intros H. unfold send_addr.
  apply bind_congr; [apply transfer_congr, low_byte_congr; [lia|exact H]|].
  intros _ s1.
  apply bind_congr; [apply transfer_congr, low_byte_congr; [lia|exact H]|].
  intros _ s2.
  apply bind_congr; [|reflexivity].
  apply transfer_congr. rewrite <- (Z.shiftr_0_r a), <- (Z.shiftr_0_r a').
  apply low_byte_congr; [lia|exact H].
Qed.

(** X9: the commands that take one address use its low 24 bits and nothing
    else: two addresses that agree modulo 2^24 (a negative one and its
    24-bit wrap, or one beyond the chip and its remainder) give the same
    result, the same bus log and the same state.  No address is refused. *)
Theorem address_taken_modulo_2_24 chip cfg u4 patience a a' s :
  a mod 16777216 = a' mod 16777216 ->
  readByte chip cfg u4 patience a s = readByte chip cfg u4 patience a' s /\
  (forall buf len, readBytes chip cfg u4 patience a buf len s
                   = readBytes chip cfg u4 patience a' buf len s) /\
  (forall b, writeByte chip cfg u4 patience a b s
             = writeByte chip cfg u4 patience a' b s) /\
  blockErase4K chip cfg u4 patience a s = blockErase4K chip cfg u4 patience a' s /\
  blockErase32K chip cfg u4 patience a s = blockErase32K chip cfg u4 patience a' s.
Proof.
  intros H.
  assert (Hs : forall B (g : unit -> M B) s1,
             bind (send_addr chip a) g s1 = bind (send_addr chip a') g s1).
  { intros B g s1. apply bind_congr; [now apply send_addr_congr|reflexivity]. }
  unfold readByte, readBytes, writeByte, blockErase4K, blockErase32K.
  repeat split; intros;
    (apply bind_congr; [reflexivity|intros _ s1; apply Hs]).
Qed.

Lemma address_taken_modulo_2_24_witness :
  (-1) mod 16777216 = 0xFFFFFF mod 16777216 /\
  readByte idle_chip no_settings false 1 (-1) power_on
  = readByte idle_chip no_settings false 1 0xFFFFFF power_on /\
  (forall buf len, readBytes idle_chip no_settings false 1 (-1) buf len power_on
                   = readBytes idle_chip no_settings false 1 0xFFFFFF buf len power_on) /\
  (forall b, writeByte idle_chip no_settings false 1 (-1) b power_on
             = writeByte idle_chip no_settings false 1 0xFFFFFF b power_on) /\
  blockErase4K idle_chip no_settings false 1 (-1) power_on
  = blockErase4K idle_chip no_settings false 1 0xFFFFFF power_on /\
  blockErase32K idle_chip no_settings false 1 (-1) power_on
  = blockErase32K idle_chip no_settings false 1 0xFFFFFF power_on.
Proof.
  assert (H : (-1) mod 16777216 = 0xFFFFFF mod 16777216) by reflexivity.
  split; [exact H|].
  exact (address_taken_modulo_2_24 idle_chip no_settings false 1 (-1) 0xFFFFFF
           power_on H).
Defined.

(** ** More of the driver: one burst for each page *)

Lemma plan_pages k : forall addr len off,
  0 <= len <= Z.of_nat k ->
  0 <= addr -> addr + len < 2147483648 ->
  0 <= off -> off + len < 65536 ->
  let pl := burst_plan k addr len (256 - addr mod 256) off in
  Z.of_nat (length pl) = pages_touched addr len /\
  Forall (fun e => fst (fst e) mod 256 = 0) (tl pl) /\
  (forall e, hd_error pl = Some e -> fst (fst e) = addr).
Proof.
  unfold pages_touched.
  induction k as [|k IH]; intros addr len off Hlen Haddr Hmax Hoff Hsz;
    cbn [burst_plan]; destruct (Z.ltb_spec 0 len) as [Hpos|Hpos]; try lia;
    try (cbn; repeat split; auto; discriminate).
  cbv zeta.
  pose proof (Z.mod_pos_bound addr 256 ltac:(lia)) as Hm.
  set (mb := 256 - addr mod 256) in *.
  set (n := if len <=? mb then len else mb).
  assert (Hn : 1 <= n <= len /\ n <= mb /\ (n < len -> n = mb)).
  { unfold n. destruct (Z.leb_spec len mb); lia. }
  rewrite (to_long_id (addr + n)) by (unfold is_long; lia).
  rewrite (to_uint16_id (len - n)) by (unfold is_uint16; lia).
  rewrite (to_uint16_id (off + n)) by (unfold is_uint16; lia).
  cbn [length tl hd_error fst snd].
  destruct (Z.eq_dec (len - n) 0) as [E|E].
  - rewrite E, burst_plan_zero. cbn [length]. repeat split; auto.
    + assert (addr / 256 = (addr + len - 1) / 256)
        by (apply same_page; fold mb; lia).
      lia.
    + now intros e [= <-].
  - assert (Hmb : n = mb) by lia.
    assert (E0 : (addr + n) mod 256 = 0).
    { rewrite Hmb. unfold mb.
      replace (addr + (256 - addr mod 256))
        with (addr - addr mod 256 + 1 * 256) by lia.
      rewrite Z.mod_add by lia.
      rewrite Zminus_mod_idemp_r, Z.sub_diag. reflexivity. }
    assert (Ediv : (addr + n) / 256 = addr / 256 + 1).
    { symmetry. apply (Z.div_unique _ _ _ 0); [lia|].
      pose proof (Z.div_mod addr 256 ltac:(lia)). lia. }
    destruct (IH (addr + n) (len - n) (off + n)) as (Hcount & Htl & Hhd);
      try lia.
    rewrite E0, Z.sub_0_r in Hcount, Htl, Hhd.
    destruct (Z.ltb_spec 0 (len - n)) as [_|]; [|lia].
    repeat split.
    + rewrite Nat2Z.inj_succ, Hcount, Ediv.
      replace (addr + n + (len - n) - 1) with (addr + len - 1) by lia. lia.
    + destruct (burst_plan k (addr + n) (len - n) 256 (off + n)) as [|e pl'];
        [constructor|].
      constructor; [|exact Htl]. now rewrite (Hhd e eq_refl).
    + now intros e [= <-].
Qed.

Lemma sent_low_address_byte f a rest :
  sent f = SPIFLASH_BYTEPAGEPROGRAM :: addr_bytes a ++ rest ->
  a mod 256 = 0 -> sent f !! 3%nat = Some 0.
Proof.
  intros Hf Ha. rewrite Hf. cbn. f_equal.
  rewrite <- to_uint8_land. exact Ha.
Qed.

Lemma tail_related {A B} (R : A -> B -> Prop) (P : A -> Prop)
      (Q : B -> Prop) l l' :
  Forall2 R l l' -> (forall a b, R a b -> P a -> Q b) ->
  Forall P (tl l) -> Forall Q (tl l').
Proof.
  intros [|a b k k' _ H] HR; [constructor|]. cbn [tl].
  induction H as [|a' b' k k' Hab _ IH]; intros Hk; [constructor|].
  apply Forall_cons in Hk as [Ha Hk]. constructor; eauto.
Qed.

(** X10: for an address that is not negative, [writeBytes] sends exactly
    one program burst for each 256-byte page the write touches, and every
    burst after the first starts at the beginning of a page: the low byte
    of its address is 0. *)
Theorem writeBytes_one_burst_per_page chip cfg u4 patience addr buf len s :
  responsive chip cfg patience ->
  0 <= addr -> addr + len < 2147483648 -> 0 <= len < 65536 ->
  let bursts :=
    with_opcode SPIFLASH_BYTEPAGEPROGRAM
      (frames (bus_trace (writeBytes chip cfg u4 patience addr buf len) s)) in
  Z.of_nat (length bursts) = pages_touched addr len /\
  Forall (fun f => sent f !! 3%nat = Some 0) (tl bursts).
Proof.
  intros Hresp Haddr Hmax Hlen.
  destruct (triple_elim _ s _
              (writeBytes_shape chip cfg u4 patience addr buf len (trace s)))
    as (fs & Ht & H).
  destruct (returns_writeBytes chip cfg u4 patience Hresp addr buf len s)
    as [[] Hr].
  rewrite Hr in H. cbv zeta. rewrite Ht, frames_render.
  rewrite first_maxBytes_nonneg in H by exact Haddr.
  pose proof (loop_programs buf _ _ _ H eq_refl) as H2.
  destruct (plan_pages (Z.to_nat len) addr len 0) as (Hcount & Htl & _);
    try lia.
  cbv zeta in Hcount, Htl. split.
  - rewrite <- (Forall2_length _ _ _ H2). exact Hcount.
  - eapply tail_related; [exact H2| |exact Htl].
    intros e f He Ha. cbv beta in *.
    eapply sent_low_address_byte; eauto.
Qed.

Lemma writeBytes_one_burst_per_page_witness :
  (responsive idle_chip no_settings 1 /\
   0 <= 0x0000FE /\ 0x0000FE + 4 < 2147483648 /\ 0 <= 4 < 65536) /\
  let bursts :=
    with_opcode SPIFLASH_BYTEPAGEPROGRAM
      (frames (bus_trace (writeBytes idle_chip no_settings false 1 0x0000FE
                                     [10; 11; 12; 13] 4) power_on)) in
  Z.of_nat (length bursts) = pages_touched 0x0000FE 4 /\
  Forall (fun f => sent f !! 3%nat = Some 0) (tl bursts).
Proof.
  assert (H1 : responsive idle_chip no_settings 1) by (intros s; reflexivity).
  assert (H2 : 0 <= 0x0000FE) by lia.
  assert (H3 : 0x0000FE + 4 < 2147483648) by lia.
  assert (H4 : 0 <= 4 < 65536) by lia.
  split; [auto|].
  exact (writeBytes_one_burst_per_page idle_chip no_settings false 1 0x0000FE
           [10; 11; 12; 13] 4 power_on H1 H2 H3 H4).
Defined.

(** ** More of the driver: a chip that always reads busy *)

Lemma hangs_bind {A B} n pre (m : M A) (f : A -> M B) :
  hangs_after n pre m -> hangs_after n pre (bind m f).
Proof.
  intros H s. destruct (H s) as (Hr & p & Ht & Hp).
  unfold result, bind in *. destruct (m s) as [[a|] s']; [discriminate|].
  split; [reflexivity|]. exists p. auto.
Qed.

Lemma logs_then_hangs {A B} n pre pre' (m : M A) (f : A -> M B) :
  logs pre m -> (forall a, hangs_after n pre' (f a)) ->
  hangs_after n (pre ++ pre') (bind m f).
Proof.
  intros Hm Hf s. destruct (Hm s) as (a & Hr & Ht).
  unfold result, bind in *. destruct (m s) as [[a'|] s']; [|discriminate].
  injection Hr as ->. cbn [snd] in Ht.
  destruct (Hf a s') as (Hr' & p & Ht' & Hp).
  split; [exact Hr'|]. exists p. split; [|exact Hp].
  rewrite Ht', Ht, <- !app_assoc. reflexivity.
Qed.

Lemma quiet_then_hangs {A B} n pre (m : M A) (f : A -> M B) :
  logs [] m -> (forall a, hangs_after n pre (f a)) ->
  hangs_after n pre (bind m f).
Proof. intros Hm Hf. apply (logs_then_hangs n [] pre m f Hm Hf). Qed.

Lemma logs_modify f pre :
  (forall s, trace (f s) = trace s ++ pre) -> logs pre (modify f).
Proof. intros H s. exists tt. split; [reflexivity|apply H]. Qed.

Lemma logs_ret {A} (a : A) : logs [] (ret a).
Proof. intros s. exists a. split; [reflexivity|]. cbn. now rewrite app_nil_r. Qed.

Lemma logs_portB u4 : logs [] (command_portB u4).
Proof.
  destruct u4; [|apply logs_ret]. apply logs_modify.
  intros s. cbn. now rewrite app_nil_r.
Qed.

Lemma logs_unselect : logs [Unselect] unselect.
Proof. intros s. exists tt. split; reflexivity. Qed.

Section Hanging.

Variable chip : list event -> Z -> Z.
Variable cfg : Z * Z -> Z * Z.
Variable u4 : bool.
Variable patience : nat.
Variable self : SPIFlash.
Hypothesis Hbusy : always_busy chip.

Lemma busy_reads_busy s :
  exists x st,
    result (busy chip cfg) s = Some true /\
    trace (snd (busy chip cfg s)) = trace s ++ render [poll_frame x st] /\
    Z.land st 1 <> 0.
Proof.
  eexists _, _. unfold busy, readStatus, result, bind. cbn.
  match goal with
  | |- context [Z.land ?st 1 =? 0] =>
      destruct (Z.eqb_spec (Z.land st 1) 0) as [E|E]
  end.
  - exfalso. revert E. apply Hbusy.
  - cbn. split; [reflexivity|]. split; [|apply Hbusy].
    rewrite <- !app_assoc. reflexivity.
Qed.

Lemma busy_wait_hangs n : hangs_after n [] (busy_wait chip cfg n).
Proof.
  induction n as [|n IH]; intros s; cbn [busy_wait].
  - split; [reflexivity|]. exists []. cbn. rewrite app_nil_r. auto.
  - destruct (busy_reads_busy s) as (x & st & Hr & Ht & Hst).
    unfold result, bind in *.
    destruct (busy chip cfg s) as [[b|] s']; [|discriminate].
    injection Hr as ->. cbn [snd] in Ht.
    destruct (IH s') as (Hr' & p & Ht' & Hp & Hn). split; [exact Hr'|].
    exists (poll_frame x st :: p). split; [|split].
    + rewrite Ht', Ht, !render_cons. change (render []) with (@nil event).
      cbn [app]. rewrite app_nil_r, <- !app_assoc. reflexivity.
    + constructor; [|exact Hp]. exists x, st. auto.
    + cbn. now rewrite Hn.
Qed.

Lemma command_rec_hangs depth c w :
  hangs_after patience [] (command_rec chip cfg u4 patience (S depth) c w).
Proof.
  rewrite command_rec_S.
  apply quiet_then_hangs; [apply logs_portB|]. intros _.
  destruct w.
  - apply hangs_bind, hangs_bind. destruct depth; cbn [command_rec].
    + apply quiet_then_hangs; [apply logs_portB|]. intros _.
      unfold isWrite_default.
      apply quiet_then_hangs; [apply logs_ret|]. intros _.
      apply hangs_bind, busy_wait_hangs.
    + apply quiet_then_hangs; [apply logs_portB|]. intros _.
      unfold isWrite_default.
      apply quiet_then_hangs; [apply logs_ret|]. intros _.
      apply hangs_bind, busy_wait_hangs.
  - apply quiet_then_hangs; [apply logs_ret|]. intros _.
    apply hangs_bind, busy_wait_hangs.
Qed.

Lemma command_hangs c w :
  hangs_after patience [] (command chip cfg u4 patience c w).
Proof. apply command_rec_hangs. Qed.

Lemma initialize_hangs :
  hangs_after patience [Unselect] (initialize chip cfg u4 patience self).
Proof.
  unfold initialize.
  apply quiet_then_hangs.
  { apply logs_modify. intros s. cbn. now rewrite app_nil_r. }
  intros _. apply quiet_then_hangs.
  { apply logs_modify. intros s. cbn. now rewrite app_nil_r. }
  intros _. apply (logs_then_hangs patience [Unselect] []);
    [apply logs_unselect|].
  intros _. apply hangs_bind. unfold wakeup. apply hangs_bind, command_hangs.
Qed.

End Hanging.

Lemma perform_hangs chip cfg u4 patience self c :
  always_busy chip -> waits_first u4 c = true ->
  hangs_after patience (preamble c) (perform chip cfg u4 patience self c).
Proof.
  destruct c as [| | |a|a buf len| | |a b|a buf len| |a|a| |];
    cbn [waits_first preamble perform]; intros Hbusy Hw; try discriminate.
  - apply hangs_bind, initialize_hangs; assumption.
  - subst u4. apply hangs_bind. unfold readDeviceId.
    apply hangs_bind, command_hangs; assumption.
  - apply hangs_bind. unfold readUniqueId. apply hangs_bind, command_hangs; assumption.
  - apply hangs_bind. unfold readByte. apply hangs_bind, command_hangs; assumption.
  - apply hangs_bind. unfold readBytes. apply hangs_bind, command_hangs; assumption.
  - unfold writeByte. apply hangs_bind, command_hangs; assumption.
  - unfold writeBytes.
    apply Z.ltb_lt in Hw.
    destruct (Z.to_nat len) as [|k] eqn:E; [lia|].
    cbn [writeBytes_loop]. apply Z.ltb_lt in Hw. rewrite Hw.
    cbv zeta. apply hangs_bind, command_hangs; assumption.
  - unfold chipErase. apply hangs_bind, command_hangs; assumption.
  - unfold blockErase4K. apply hangs_bind, command_hangs; assumption.
  - unfold blockErase32K. apply hangs_bind, command_hangs; assumption.
  - unfold sleep. apply hangs_bind, command_hangs; assumption.
  - unfold wakeup. apply hangs_bind, command_hangs; assumption.
Qed.

(** X11: with a chip whose status always reads busy (or with no chip and a
    data line that floats high), every call that begins with the wait of
    [command] never returns, however long the wait is followed: the bus
    carries status polls only, all of them read busy, and no opcode of the
    call is ever sent.  [initialize] hangs after its first unselect. *)
Theorem always_busy_chip_hangs chip cfg u4 patience self c s :
  always_busy chip -> waits_first u4 c = true ->
  result (perform chip cfg u4 patience self c) s = None /\
  exists p,
    bus_trace (perform chip cfg u4 patience self c) s
      = preamble c ++ render p /\
    Forall is_busy_poll p /\ length p = patience.
Proof.
  intros Hb Hw.
  destruct (perform_hangs chip cfg u4 patience self c Hb Hw s)
    as (Hr & p & Ht & Hp & Hn).
  split; [exact Hr|]. exists p. split; [|auto].
  now apply bus_trace_app.
Qed.

Lemma always_busy_chip_hangs_witness :
  (always_busy absent_chip /\ waits_first false ChipErase = true) /\
  result (perform absent_chip no_settings false 5 (Build_SPIFlash 10 0)
                  ChipErase) power_on = None /\
  exists p,
    bus_trace (perform absent_chip no_settings false 5 (Build_SPIFlash 10 0)
                       ChipErase) power_on
      = preamble ChipErase ++ render p /\
    Forall is_busy_poll p /\ length p = 5%nat.
Proof.
  assert (H1 : always_busy absent_chip) by (intros h tx; discriminate).
  assert (H2 : waits_first false ChipErase = true) by reflexivity.
  split; [auto|].
  exact (always_busy_chip_hangs absent_chip no_settings false 5
           (Build_SPIFlash 10 0) ChipErase power_on H1 H2).
Defined.

(** X12: the calls that do not go through the wait of [command] return
    whatever the chip answers: [readStatus], [busy], [readDeviceId] in the
    default build, and a [writeBytes] of no bytes. *)
Theorem calls_without_wait_return chip cfg u4 patience self c s :
  waits_first u4 c = false ->
  result (perform chip cfg u4 patience self c) s = Some tt.
Proof.
  destruct c as [| | |a|a buf len| | |a b|a buf len| |a|a| |];
    cbn [waits_first perform]; intros Hw; try discriminate.
  - subst u4. reflexivity.
  - reflexivity.
  - reflexivity.
  - unfold writeBytes. destruct (Z.to_nat len); cbn [writeBytes_loop];
      rewrite Hw; reflexivity.
Qed.

Lemma calls_without_wait_return_witness :
  waits_first false ReadDeviceId = false /\
  result (perform absent_chip no_settings false 0 (Build_SPIFlash 10 0)
                  ReadDeviceId) power_on = Some tt.
Proof.
  split; [reflexivity|].
  exact (calls_without_wait_return absent_chip no_settings false 0
           (Build_SPIFlash 10 0) ReadDeviceId power_on eq_refl).
Defined.

(** ** More of the driver: the unique identifier *)

Lemma readUniqueId_loop_S chip k (i : nat) s :
  readUniqueId_loop chip (S k) (Z.of_nat i) s =
  let b := to_uint8 (chip (trace s) 0) in
  readUniqueId_loop chip k (Z.of_nat (S i))
    (set_UNIQUEID (<[i := b]> (UNIQUEID s))
       (set_trace (fun t => t ++ [Xfer 0 b]) s)).
Proof.
  cbn [readUniqueId_loop]. unfold bind, SPI_transfer, modify.
  rewrite Nat2Z.id. replace (Z.of_nat i + 1) with (Z.of_nat (S i)) by lia.
  reflexivity.
Qed.

Lemma readUniqueId_loop_fills chip k : forall (i : nat) s,
  (i + k <= length (UNIQUEID s))%nat ->
  exists data,
    length data = k /\
    result (readUniqueId_loop chip k (Z.of_nat i)) s = Some tt /\
    trace (snd (readUniqueId_loop chip k (Z.of_nat i) s))
      = trace s ++ xfers (map (fun b => (0, b)) data) /\
    UNIQUEID (snd (readUniqueId_loop chip k (Z.of_nat i) s))
      = take i (UNIQUEID s) ++ data ++ drop (i + k) (UNIQUEID s).
Proof.
  induction k as [|k IH]; intros i s Hlen.
  - exists []. cbn. rewrite Nat.add_0_r, app_nil_r, take_drop. auto.
  - unfold result. rewrite readUniqueId_loop_S. cbv zeta.
    set (b := to_uint8 (chip (trace s) 0)).
    set (s2 := set_UNIQUEID _ _).
    assert (HU : UNIQUEID s2 = <[i := b]> (UNIQUEID s)) by reflexivity.
    assert (HT : trace s2 = trace s ++ [Xfer 0 b]) by reflexivity.
    destruct (IH (S i) s2) as (data & Hd & Hr & Ht & Hu).
    { rewrite HU, length_insert. lia. }
    exists (b :: data). split; [cbn; now rewrite Hd|].
    split; [exact Hr|]. split.
    + rewrite Ht, HT, <- app_assoc. reflexivity.
    + rewrite Hu, HU.
      rewrite (take_S_r _ _ b) by (apply list_lookup_insert_eq; lia).
      rewrite take_insert_ge by lia. rewrite drop_insert_lt by lia.
      rewrite <- app_assoc. cbn [app].
      replace (S i + k)%nat with (i + S k)%nat by lia. reflexivity.
Qed.

Lemma bind_eval {A B} (m : M A) (k : A -> M B) s a s' :
  m s = (Some a, s') -> bind m k s = k a s'.
Proof. intros E. unfold bind. now rewrite E. Qed.

Lemma result_bind_eval {A B} (m : M A) (k : A -> M B) s a s' :
  m s = (Some a, s') -> result (bind m k) s = result (k a) s'.
Proof. intros E. unfold result. now rewrite (bind_eval _ _ _ _ _ E). Qed.

Lemma transfer_then {A} chip v (k : M A) s :
  (SPI_transfer chip v ;;; k) s =
  k (set_trace (fun t => t ++ [Xfer (to_uint8 v)
                                    (to_uint8 (chip (trace s) (to_uint8 v)))])
               s).
Proof. reflexivity. Qed.

Lemma readUniqueId_tail chip s (m : M (list Z)) :
  m = (SPI_transfer chip 0 ;;; SPI_transfer chip 0 ;;;
       SPI_transfer chip 0 ;;; SPI_transfer chip 0 ;;;
       readUniqueId_loop chip 8 0 ;;; unselect ;;; gets UNIQUEID) ->
  length (UNIQUEID s) = 8%nat ->
  exists pad data,
    length pad = 4%nat /\ length data = 8%nat /\
    result m s = Some data /\
    UNIQUEID (snd (m s)) = data /\
    trace (snd (m s))
      = trace s ++ xfers (map (fun b => (0, b)) (pad ++ data)) ++ [Unselect].
Proof.
  intros -> Hlen. unfold result. rewrite !transfer_then.
  change (to_uint8 0) with 0.
  set (s4 := set_trace _ (set_trace _ (set_trace _ (set_trace _ s)))).
  assert (exists pad, length pad = 4%nat /\
            trace s4 = trace s ++ xfers (map (fun b => (0, b)) pad))
    as (pad & Hpad & H4).
  { eexists [_; _; _; _]. split; [reflexivity|]. cbn.
    rewrite <- !app_assoc. reflexivity. }
  assert (HU : UNIQUEID s4 = UNIQUEID s) by reflexivity.
  clearbody s4.
  destruct (readUniqueId_loop_fills chip 8 0 s4) as (data & Hd & Hr & Ht & Hu).
  { rewrite HU, Hlen. lia. }
  change (Z.of_nat 0) with 0 in Hr, Ht, Hu.
  rewrite HU, drop_ge, app_nil_r in Hu by lia.
  change (take 0 (UNIQUEID s) ++ data) with data in Hu.
  exists pad, data. unfold result in Hr.
  destruct (readUniqueId_loop chip 8 0 s4) as [[[]|] s5] eqn:E;
    [|discriminate].
  rewrite (bind_eval _ _ _ _ _ E). cbn [snd] in Ht, Hu. cbn.
  repeat split; auto; [congruence|].
  rewrite Ht, H4, map_app, xfers_app, <- !app_assoc. reflexivity.
Qed.

Lemma command_keeps_unique_id chip cfg u4 patience c w s :
  UNIQUEID (snd (command chip cfg u4 patience c w s)) = UNIQUEID s.
Proof.
  apply (keeps_command chip cfg u4 patience
           (fun s s' => UNIQUEID s' = UNIQUEID s)); try reflexivity.
  - intros s1 s2 s3 H1 H2. congruence.
  - intros s1. unfold command_portB. destruct u4; reflexivity.
Qed.

(** X13: when the chip answers its status polls, [readUniqueId] waits for it
    and then, in one transaction, sends the opcode 0x4B and twelve zero
    bytes; the eight bytes received after the first five exchanges are
    stored in order in the buffer [UNIQUEID], which is what it returns. *)
Theorem readUniqueId_fills_buffer chip cfg u4 patience s :
  responsive chip cfg patience ->
  length (UNIQUEID s) = 8%nat ->
  exists l f data,
    result (readUniqueId chip cfg u4 patience) s = Some data /\
    UNIQUEID (snd (readUniqueId chip cfg u4 patience s)) = data /\
    bus_trace (readUniqueId chip cfg u4 patience) s
      = render l ++ [Select] ++ xfers f ++ [Unselect] /\
    ready_polls l /\
    sent f = SPIFLASH_MACREAD :: repeat 0 12 /\
    drop 5 (received f) = data /\
    length data = 8%nat.
Proof.
  intros Hresp Hlen.
  destruct (command_shape chip cfg u4 patience SPIFLASH_MACREAD
              isWrite_default (trace s) s eq_refl) as (t & Ht & Hc).
  destruct (returns_command chip cfg u4 patience Hresp SPIFLASH_MACREAD
              isWrite_default s) as [[] Hr].
  pose proof (command_keeps_unique_id chip cfg u4 patience SPIFLASH_MACREAD
                isWrite_default s) as Hk.
  unfold result in Hr. rewrite Hr in Hc.
  destruct Hc as (l & x & Hl & ->).
  unfold bus_trace, readUniqueId.
  destruct (command chip cfg u4 patience SPIFLASH_MACREAD isWrite_default s)
    as [[[]|] s1] eqn:E; [|discriminate].
  rewrite (result_bind_eval _ _ _ _ _ E), (bind_eval _ _ _ _ _ E). cbv beta.
  cbn [snd] in Ht, Hk.
  destruct (readUniqueId_tail chip s1 _ eq_refl)
    as (pad & data & Hp & Hd & Hres & Hu & Htr); [congruence|].
  exists l, ((SPIFLASH_MACREAD, x) :: map (fun b => (0, b)) (pad ++ data)), data.
  split; [exact Hres|]. split; [exact Hu|]. split; [|split; [exact Hl|split; [|split]]].
  - rewrite Htr, Ht, <- !app_assoc, drop_app_length. reflexivity.
  - rewrite sent_cons, sent_zeros, length_app, Hp, Hd. reflexivity.
  - rewrite received_cons, received_zeros.
    change (drop 5 (x :: pad ++ data)) with (drop 4 (pad ++ data)).
    rewrite <- Hp. apply drop_app_length.
  - exact Hd.
Qed.

Lemma readUniqueId_fills_buffer_witness :
  (responsive idle_chip no_settings 1 /\ length (UNIQUEID power_on) = 8%nat) /\
  exists l f data,
    result (readUniqueId idle_chip no_settings false 1) power_on = Some data /\
    UNIQUEID (snd (readUniqueId idle_chip no_settings false 1 power_on))
      = data /\
    bus_trace (readUniqueId idle_chip no_settings false 1) power_on
      = render l ++ [Select] ++ xfers f ++ [Unselect] /\
    ready_polls l /\
    sent f = SPIFLASH_MACREAD :: repeat 0 12 /\
    drop 5 (received f) = data /\
    length data = 8%nat.
Proof.
  assert (H1 : responsive idle_chip no_settings 1) by (intros s; reflexivity).
  assert (H2 : length (UNIQUEID power_on) = 8%nat) by reflexivity.
  split; [auto|].
  exact (readUniqueId_fills_buffer idle_chip no_settings false 1 power_on
           H1 H2).
Defined.

(** ** More of the driver: the status register *)

Lemma low_bit_odd z : negb (Z.land z 1 =? 0) = Z.odd z.
Proof.
  change 1 with (Z.ones 1) at 1. rewrite Z.land_ones by lia.
  change (2 ^ 1) with 2. rewrite Zmod_odd. now destruct (Z.odd z).
Qed.

(** X14: [readStatus] does not wait for the chip: it makes one transaction,
    the opcode 0x05 and a zero byte, and returns the byte the chip answers
    to the zero byte; [busy] makes the same transaction and returns whether
    that byte is odd, that is, bit 0 of the status register. *)
Theorem busy_is_status_bit_0 chip cfg s :
  exists x st,
    st = to_uint8 (chip (trace s ++ [Select; Xfer SPIFLASH_STATUSREAD x]) 0) /\
    result (readStatus chip cfg) s = Some st /\
    result (busy chip cfg) s = Some (Z.odd st) /\
    bus_trace (readStatus chip cfg) s = render [poll_frame x st] /\
    bus_trace (busy chip cfg) s = render [poll_frame x st].
Proof.
  exists (to_uint8 (chip (trace s ++ [Select]) SPIFLASH_STATUSREAD)).
  eexists. split; [reflexivity|].
  unfold busy, readStatus, result, bus_trace, bind. cbn.
  rewrite low_bit_odd, <- !app_assoc, drop_app_length. cbn [app].
  repeat split.
Qed.

(** ** More of the driver: the wait has no limit *)




Section Waiting.

Variable chip : list event -> Z -> Z.
Variable cfg : Z * Z -> Z * Z.
Variable u4 : bool.
Variables p k : nat.
Variable self : SPIFlash.









End Waiting.


